(** * strainer.structure: field translators, validator chains and error
      aggregation

    A shallow embedding of [strainer/structure.py].  Python values are a
    small closed universe (None, integers, strings, lists, insertion-ordered
    dictionaries and plain attribute-carrying objects); raising is an
    explicit [result]; the mutable [target] accumulator that field
    translators write into is passed and returned explicitly, so that what
    a call leaves in the accumulator when it raises can be stated. *)

From Stdlib Require Import List String Ascii ZArith Bool Lia Permutation.
Import ListNotations.
Local Open Scope string_scope.
Local Open Scope list_scope.
Set Warnings "-register-all".

(** ** Python values *)

(** Hashable values, usable as dictionary keys. *)
Inductive key : Type :=
| KNone
| KInt (z : Z)
| KStr (s : string).

(** [VDict] keeps insertion order, as Python dictionaries do; [VObj] is an
    instance of a plain class (one that defines nothing of its own, such as
    [types.SimpleNamespace]), given by its instance attributes: not
    iterable, not hashable, compared attribute by attribute. *)
Inductive val : Type :=
| VNone
| VInt (z : Z)
| VStr (s : string)
| VList (l : list val)
| VDict (d : list (key * val))
| VObj (attrs : list (string * val)).

Definition dict : Type := list (key * val).

(** [ValidationException(errors)] of [strainer/exceptions.py] stores its
    argument as [.errors]; the other three are the built-in exceptions the
    module can run into. *)
Inductive exn : Type :=
| ValidationException (errors : val)
| TypeError
| ValueError
| AttributeError.

Inductive result (A : Type) : Type :=
| Ok (a : A)
| Raise (e : exn).
Arguments Ok {A} a.
Arguments Raise {A} e.

Definition bind {A B : Type} (r : result A) (k : A -> result B) : result B :=
  match r with
  | Ok a => k a
  | Raise e => Raise e
  end.

Notation "'do' x <- r ; k" := (bind r (fun x => k))
  (at level 10, x pattern, r at level 100, k at level 200).

Definition key_eqb (a b : key) : bool :=
  match a, b with
  | KNone, KNone => true
  | KInt x, KInt y => Z.eqb x y
  | KStr x, KStr y => String.eqb x y
  | _, _ => false
  end.

Definition key_to_value (k : key) : val :=
  match k with
  | KNone => VNone
  | KInt z => VInt z
  | KStr s => VStr s
  end.

(** [hash(v)]: lists, dictionaries and attribute objects are unhashable. *)
Definition to_key (v : val) : result key :=
  match v with
  | VNone => Ok KNone
  | VInt z => Ok (KInt z)
  | VStr s => Ok (KStr s)
  | _ => Raise TypeError
  end.

(** ** Dictionaries *)

Fixpoint dict_lookup (k : key) (d : dict) : option val :=
  match d with
  | [] => None
  | (k', v) :: d' => if key_eqb k k' then Some v else dict_lookup k d'
  end.

(** [d[k] = v]: an existing key keeps its position, a new one goes last. *)
Fixpoint dict_set (k : key) (v : val) (d : dict) : dict :=
  match d with
  | [] => [(k, v)]
  | (k', v') :: d' =>
      if key_eqb k k' then (k', v) :: d' else (k', v') :: dict_set k v d'
  end.

Definition dict_keys (d : dict) : list key := map fst d.

(** [d.update(other)] for a dictionary [other]. *)
Definition dict_update (d other : dict) : dict :=
  fold_left (fun acc kv => dict_set (fst kv) (snd kv) acc) other d.

Fixpoint chars (s : string) : list val :=
  match s with
  | EmptyString => []
  | String c s' => VStr (String c EmptyString) :: chars s'
  end.

(** [iter(v)] run to the end: the elements a [for] loop sees. *)
Definition py_iter (v : val) : result (list val) :=
  match v with
  | VList l => Ok l
  | VStr s => Ok (chars s)
  | VDict d => Ok (map key_to_value (dict_keys d))
  | VNone | VInt _ | VObj _ => Raise TypeError
  end.

(** [d.update(v)] for any value: a dictionary is merged; anything else is
    iterated and every element must itself unpack into a (key, value)
    pair. *)
Fixpoint update_pairs (d : dict) (items : list val) : result dict :=
  match items with
  | [] => Ok d
  | item :: rest =>
      do kv <- py_iter item;
      match kv with
      | [k; v] => do k' <- to_key k; update_pairs (dict_set k' v d) rest
      | _ => Raise ValueError
      end
  end.

Definition py_update (d : dict) (v : val) : result dict :=
  match v with
  | VDict other => Ok (dict_update d other)
  | _ => do items <- py_iter v; update_pairs d items
  end.

(** [v.get(k, default)]: only dictionaries have a [get] method; an object
    carrying a [get] attribute holds a value, and values are not
    callable. *)
Definition py_get (v : val) (k : key) (default : val) : result val :=
  match v with
  | VDict d =>
      match dict_lookup k d with
      | Some x => Ok x
      | None => Ok default
      end
  | VObj attrs =>
      if existsb (fun a => String.eqb (fst a) "get") attrs
      then Raise TypeError else Raise AttributeError
  | _ => Raise AttributeError
  end.

(** ** Attribute access *)

Fixpoint attr_lookup (name : string) (attrs : list (string * val))
  : option val :=
  match attrs with
  | [] => None
  | (n, v) :: rest => if String.eqb name n then Some v else attr_lookup name rest
  end.

(** [getattr(v, name)], for the lookups whose answer is in this
    universe: an instance attribute of a [VObj], or [AttributeError] for a
    name the value does not have.  Python also answers names that come with
    the value's type: the methods of built-in values ([dict.get],
    [list.append], ...) and the implicit attributes of every object
    ([__class__], [__dict__], [__doc__], ...).  Most of these answers are
    bound methods and classes, for which the universe has no value; such
    lookups are not modelled, and the [AttributeError] given for them
    stands for an answer outside the universe.  The statements that rest
    on an [AttributeError] from here are about a [VObj] and a name that
    does not start with an underscore, or about one given value and
    name. *)
Definition getattr (v : val) (name : string) : result val :=
  match v with
  | VObj attrs =>
      match attr_lookup name attrs with
      | Some x => Ok x
      | None => Raise AttributeError
      end
  | _ => Raise AttributeError
  end.

(** Split a dotted attribute path at every ["."]. *)
Fixpoint split_dots (s : string) (cur : string) : list string :=
  match s with
  | EmptyString => [cur]
  | String c s' =>
      if Ascii.eqb c "."%char then cur :: split_dots s' EmptyString
      else split_dots s' (cur ++ String c EmptyString)
  end.

(** [operator.attrgetter(name)]: resolves dotted names one attribute at a
    time. *)
Definition attrgetter (name : string) (v : val) : result val :=
  fold_left (fun r n => do x <- r; getattr x n) (split_dots name EmptyString) (Ok v).

(** ** Python equality

    [==] on this universe: structural, except that two dictionaries are
    equal when they have the same number of entries and agree key by key,
    whatever the insertion order. *)
Fixpoint py_eq (a b : val) {struct a} : bool :=
  match a, b with
  | VNone, VNone => true
  | VInt x, VInt y => Z.eqb x y
  | VStr x, VStr y => String.eqb x y
  | VList la, VList lb =>
      (fix list_eq (xs ys : list val) {struct xs} : bool :=
         match xs, ys with
         | [], [] => true
         | x :: xs', y :: ys' => py_eq x y && list_eq xs' ys'
         | _, _ => false
         end) la lb
  | VDict da, VDict db =>
      Nat.eqb (List.length da) (List.length db) &&
      (fix entries (es : list (key * val)) {struct es} : bool :=
         match es with
         | [] => true
         | (k, v) :: es' =>
             match dict_lookup k db with
             | Some v' => py_eq v v' && entries es'
             | None => false
             end
         end) da
  | VObj xa, VObj xb =>
      (fix attrs_eq (xs ys : list (string * val)) {struct xs} : bool :=
         match xs, ys with
         | [], [] => true
         | (n, x) :: xs', (m, y) :: ys' =>
             String.eqb n m && py_eq x y && attrs_eq xs' ys'
         | _, _ => false
         end) xa xb
  | _, _ => false
  end.

(** ** Translators *)

Section Structure.

(** The caller's context: never inspected, only handed on. *)
Context {context : Type}.

(** Validators and formatters are caller-supplied functions of the value
    and the context; either may raise. *)
Definition validator : Type := val -> context -> result val.
Definition formatter : Type := val -> context -> result val.
Definition getter : Type := val -> result val.

(** The class [Translator] holds two functions.  The ones [serializer]
    returns take [(source, context)] and return a fresh object; the ones
    [field], [child] and [many] return take [(source, target, context)],
    write into [target] and return it.  The two shapes get a record each;
    a field operation maps the accumulator it is given to the accumulator
    it leaves behind and to how the call ended. *)
Record Translator : Type := {
  serialize : val -> context -> result val;
  deserialize : val -> context -> result val
}.

Record FieldTranslator : Type := {
  fserialize : val -> dict -> context -> dict * result unit;
  fdeserialize : val -> dict -> context -> dict * result unit
}.

(** [target[k] = <expression>]: nothing is written when the expression
    raises. *)
Definition assign (target : dict) (k : key) (r : result val)
  : dict * result unit :=
  match r with
  | Ok v => (dict_set k v target, Ok tt)
  | Raise e => (target, Raise e)
  end.

(** [x if x else y] on an optional name: [None] and the empty string are
    both false. *)
Definition name_or (target_field : option string) (source_field : string)
  : string :=
  match target_field with
  | Some (String c s) => String c s
  | _ => source_field
  end.

(** An optional list argument, where [None] and [[]] are both false. *)
Definition list_or_empty {A : Type} (l : option (list A)) : list A :=
  match l with
  | Some l' => l'
  | None => []
  end.

(** *** run_validators *)

Fixpoint run_validators_loop (validators : list validator) (ctx : context)
    (value : val) (errors : list val)
  : result (val * list val) :=
  match validators with
  | [] => Ok (value, errors)
  | validator :: rest =>
      match validator value ctx with
      | Ok value' => run_validators_loop rest ctx value' errors
      | Raise (ValidationException e) =>
          run_validators_loop rest ctx value (errors ++ [e])
      | Raise other => Raise other
      end
  end.

Definition run_validators (value : val) (validators : list validator)
    (ctx : context) : result (val * list val) :=
  run_validators_loop validators ctx value [].

(** *** field *)

(** [_validate(value, field, context)] of [field]. *)
Definition field_validate (validators : list validator) (value : val)
    (field : key) (ctx : context) : result val :=
  do r <- run_validators value validators ctx;
  match snd r with
  | [] => Ok (fst r)
  | _ :: _ => Raise (ValidationException (VDict [(field, VList (snd r))]))
  end.

Fixpoint run_formatters (formatters : list formatter) (ctx : context)
    (value : val) : result val :=
  match formatters with
  | [] => Ok value
  | formater :: rest =>
      do value' <- formater value ctx; run_formatters rest ctx value'
  end.

Definition field_serialize (source_field target_field : string)
    (attr_getter : getter) (formatters : list formatter)
    (source : val) (target : dict) (ctx : context) : dict * result unit :=
  assign target (KStr target_field)
    (do value <- attr_getter source; run_formatters formatters ctx value).

(** The [for i, v in enumerate(val)] loop of the list mode, with its two
    accumulators. *)
Fixpoint field_multiple_loop (validators : list validator) (ctx : context)
    (items : list val) (i : nat) (errors : dict) (new_value : list val)
  : result (dict * list val) :=
  match items with
  | [] => Ok (errors, new_value)
  | v :: rest =>
      match field_validate validators v (KInt (Z.of_nat i)) ctx with
      | Ok v' =>
          field_multiple_loop validators ctx rest (S i) errors (new_value ++ [v'])
      | Raise (ValidationException e) =>
          do errors' <- py_update errors e;
          field_multiple_loop validators ctx rest (S i) errors' new_value
      | Raise other => Raise other
      end
  end.

Definition field_deserialize (source_field target_field : string)
    (validators : list validator) (multiple : bool)
    (source : val) (target : dict) (ctx : context) : dict * result unit :=
  assign target (KStr source_field)
    (do value <- py_get source (KStr target_field) VNone;
     if multiple then
       do items <- py_iter value;
       do r <- field_multiple_loop validators ctx items 0 [] [];
       match fst r with
       | [] => Ok (VList (snd r))
       | _ :: _ =>
           Raise (ValidationException (VDict [(KStr target_field, VDict (fst r))]))
       end
     else field_validate validators value (KStr target_field) ctx).

Definition field (source_field : string) (target_field : option string)
    (validators : option (list validator)) (multiple : bool)
    (attr_getter : option getter) (formatters : option (list formatter))
  : FieldTranslator :=
  let target_field := name_or target_field source_field in
  let validators := list_or_empty validators in
  let attr_getter :=
    match attr_getter with
    | Some g => g
    | None => attrgetter source_field
    end in
  {| fserialize := field_serialize source_field target_field attr_getter
                     (list_or_empty formatters);
     fdeserialize := field_deserialize source_field target_field validators
                       multiple |}.

(** [dict_field]: [field] with key lookup as the default getter. *)
Definition dict_field (source_field : string) (target_field : option string)
    (validators : option (list validator)) (multiple : bool)
    (attr_getter : option getter) (formatters : option (list formatter))
  : FieldTranslator :=
  field source_field target_field validators multiple
    (match attr_getter with
     | Some g => Some g
     | None => Some (fun d => py_get d (KStr source_field) VNone)
     end)
    formatters.

(** *** child and many *)

(** The pre-validation step shared by [child] and [many]:
    [if validators: ...; if errors: raise]. *)
Definition pre_validate (target_field : string)
    (validators : option (list validator)) (sub_source : val)
    (ctx : context) : result val :=
  match list_or_empty validators with
  | [] => Ok sub_source
  | vs =>
      do r <- run_validators sub_source vs ctx;
      match snd r with
      | [] => Ok (fst r)
      | _ :: _ =>
          Raise (ValidationException (VDict [(KStr target_field, VList (snd r))]))
      end
  end.

Definition child_serialize (target_field : string) (serializer : Translator)
    (attr_getter : getter) (source : val) (target : dict) (ctx : context)
  : dict * result unit :=
  assign target (KStr target_field)
    (do sub_source <- attr_getter source; serialize serializer sub_source ctx).

Definition child_deserialize (source_field target_field : string)
    (serializer : Translator) (validators : option (list validator))
    (source : val) (target : dict) (ctx : context) : dict * result unit :=
  assign target (KStr source_field)
    (do sub_source <- py_get source (KStr target_field) VNone;
     do sub_source <- pre_validate target_field validators sub_source ctx;
     match deserialize serializer sub_source ctx with
     | Ok v => Ok v
     | Raise (ValidationException e) =>
         Raise (ValidationException (VDict [(KStr target_field, e)]))
     | Raise other => Raise other
     end).

Definition child (source_field : string) (target_field : option string)
    (serializer : Translator) (validators : option (list validator))
    (attr_getter : option getter) : FieldTranslator :=
  let target_field := name_or target_field source_field in
  let attr_getter :=
    match attr_getter with
    | Some g => g
    | None => attrgetter source_field
    end in
  {| fserialize := child_serialize target_field serializer attr_getter;
     fdeserialize := child_deserialize source_field target_field serializer
                       validators |}.

Fixpoint many_serialize_items (serializer : Translator) (ctx : context)
    (items : list val) : result (list val) :=
  match items with
  | [] => Ok []
  | i :: rest =>
      do x <- serialize serializer i ctx;
      do xs <- many_serialize_items serializer ctx rest;
      Ok (x :: xs)
  end.

Definition many_serialize (target_field : string) (serializer : Translator)
    (attr_getter : getter) (source : val) (target : dict) (ctx : context)
  : dict * result unit :=
  assign target (KStr target_field)
    (do sub_source <- attr_getter source;
     do items <- py_iter sub_source;
     do collector <- many_serialize_items serializer ctx items;
     Ok (VList collector)).

(** The [for i in sub_source] loop of [many.deserialize]. *)
Fixpoint many_loop (serializer : Translator) (ctx : context)
    (items : list val) (collector errors : list val)
  : result (list val * list val) :=
  match items with
  | [] => Ok (collector, errors)
  | i :: rest =>
      match deserialize serializer i ctx with
      | Ok x => many_loop serializer ctx rest (collector ++ [x]) errors
      | Raise (ValidationException e) =>
          many_loop serializer ctx rest collector (errors ++ [e])
      | Raise other => Raise other
      end
  end.

(** Here the list is stored before the errors are looked at. *)
Definition many_deserialize (source_field target_field : string)
    (serializer : Translator) (validators : option (list validator))
    (source : val) (target : dict) (ctx : context) : dict * result unit :=
  match
    (do sub_source <- py_get source (KStr target_field) (VList []);
     do sub_source <- pre_validate target_field validators sub_source ctx;
     do items <- py_iter sub_source;
     many_loop serializer ctx items [] [])
  with
  | Raise e => (target, Raise e)
  | Ok (collector, errors) =>
      let target' := dict_set (KStr source_field) (VList collector) target in
      match errors with
      | [] => (target', Ok tt)
      | _ :: _ =>
          (target',
           Raise (ValidationException (VDict [(KStr target_field, VList errors)])))
      end
  end.

Definition many (source_field : string) (target_field : option string)
    (serializer : Translator) (validators : option (list validator))
    (attr_getter : option getter) : FieldTranslator :=
  let target_field := name_or target_field source_field in
  let attr_getter :=
    match attr_getter with
    | Some g => g
    | None => attrgetter source_field
    end in
  {| fserialize := many_serialize target_field serializer attr_getter;
     fdeserialize := many_deserialize source_field target_field serializer
                       validators |}.

(** *** serializer *)

Fixpoint serialize_loop (fields : list FieldTranslator) (source : val)
    (ctx : context) (target : dict) : result dict :=
  match fields with
  | [] => Ok target
  | field :: rest =>
      match fserialize field source target ctx with
      | (target', Ok _) => serialize_loop rest source ctx target'
      | (_, Raise e) => Raise e
      end
  end.

Definition serializer_serialize (fields : list FieldTranslator)
    (source : val) (ctx : context) : result val :=
  do target <- serialize_loop fields source ctx [];
  Ok (VDict target).

(** The loop of [serializer.deserialize]: only a validation error is
    caught, and its payload goes through [errors.update]. *)
Fixpoint deserialize_loop (fields : list FieldTranslator) (source : val)
    (ctx : context) (target errors : dict) : result (dict * dict) :=
  match fields with
  | [] => Ok (target, errors)
  | field :: rest =>
      match fdeserialize field source target ctx with
      | (target', Ok _) => deserialize_loop rest source ctx target' errors
      | (target', Raise (ValidationException e)) =>
          do errors' <- py_update errors e;
          deserialize_loop rest source ctx target' errors'
      | (_, Raise other) => Raise other
      end
  end.

Definition serializer_deserialize (fields : list FieldTranslator)
    (source : val) (ctx : context) : result val :=
  do r <- deserialize_loop fields source ctx [] [];
  match snd r with
  | [] => Ok (VDict (fst r))
  | _ :: _ => Raise (ValidationException (VDict (snd r)))
  end.

Definition serializer (fields : list FieldTranslator) : Translator :=
  {| serialize := serializer_serialize fields;
     deserialize := serializer_deserialize fields |}.

End Structure.

(** ** Descriptions used in the statements *)

(** Whether a value occurs somewhere inside another: as the value itself,
    as an element of a list, or as a value stored in a mapping or an
    object, at any depth. *)
Fixpoint occurs (needle v : val) {struct v} : bool :=
  py_eq needle v ||
  match v with
  | VList l =>
      (fix any (xs : list val) : bool :=
         match xs with
         | [] => false
         | x :: xs' => occurs needle x || any xs'
         end) l
  | VDict d =>
      (fix any (es : list (key * val)) : bool :=
         match es with
         | [] => false
         | (_, x) :: es' => occurs needle x || any es'
         end) d
  | VObj attrs =>
      (fix any (es : list (string * val)) : bool :=
         match es with
         | [] => false
         | (_, x) :: es' => occurs needle x || any es'
         end) attrs
  | _ => false
  end.

(** A value all of whose mappings have pairwise distinct keys, as every
    Python dictionary has. *)
Fixpoint distinct_keys (ks : list key) : bool :=
  match ks with
  | [] => true
  | k :: rest => negb (existsb (key_eqb k) rest) && distinct_keys rest
  end.

Fixpoint well_formed (v : val) : bool :=
  match v with
  | VList l =>
      (fix all (xs : list val) : bool :=
         match xs with
         | [] => true
         | x :: xs' => well_formed x && all xs'
         end) l
  | VDict d =>
      distinct_keys (dict_keys d) &&
      (fix all (es : list (key * val)) : bool :=
         match es with
         | [] => true
         | (_, x) :: es' => well_formed x && all es'
         end) d
  | VObj attrs =>
      (fix all (es : list (string * val)) : bool :=
         match es with
         | [] => true
         | (_, x) :: es' => well_formed x && all es'
         end) attrs
  | _ => true
  end.

(** [d.get(k)] with the default [None], on a dictionary. *)
Definition dict_get (d : dict) (k : key) : val :=
  match dict_lookup k d with
  | Some v => v
  | None => VNone
  end.

Section Descriptions.

Context {context : Type}.

(** The validator chain as the documentation tells it: a validator that
    returns hands its result to the next one; a validator that raises a
    validation error leaves the value as it was and its error is
    recorded, in order. *)
Inductive chain (ctx : context) : val -> list validator -> val -> list val -> Prop :=
| chain_done (v : val) : chain ctx v [] v []
| chain_pass (v v' final : val) (f : validator) (fs : list validator)
    (errors : list val) :
    f v ctx = Ok v' ->
    chain ctx v' fs final errors ->
    chain ctx v (f :: fs) final errors
| chain_record (v final e : val) (f : validator) (fs : list validator)
    (errors : list val) :
    f v ctx = Raise (ValidationException e) ->
    chain ctx v fs final errors ->
    chain ctx v (f :: fs) final (e :: errors).

(** A chain in which no validator raises. *)
Inductive all_pass (ctx : context) : val -> list validator -> val -> Prop :=
| all_pass_done (v : val) : all_pass ctx v [] v
| all_pass_step (v v' final : val) (f : validator) (fs : list validator) :
    f v ctx = Ok v' ->
    all_pass ctx v' fs final ->
    all_pass ctx v (f :: fs) final.

(** What the list mode of [field] reports: the outcomes of the elements
    whose chain recorded something, under their positions. *)
Fixpoint index_errors (i : nat) (outcomes : list (val * list val)) : dict :=
  match outcomes with
  | [] => []
  | (_, []) :: rest => index_errors (S i) rest
  | (_, errs) :: rest =>
      (KInt (Z.of_nat i), VList errs) :: index_errors (S i) rest
  end.

Definition clean (o : val * list val) : bool :=
  match snd o with
  | [] => true
  | _ :: _ => false
  end.

(** What a sub-translator makes of a list of elements: the results of the
    elements it accepts and the error payloads of those it rejects, each
    in the order of the elements. *)
Fixpoint accepted (serializer : @Translator context) (ctx : context)
    (items : list val) : list val :=
  match items with
  | [] => []
  | i :: rest =>
      match deserialize serializer i ctx with
      | Ok x => x :: accepted serializer ctx rest
      | Raise _ => accepted serializer ctx rest
      end
  end.

Fixpoint rejected (serializer : @Translator context) (ctx : context)
    (items : list val) : list val :=
  match items with
  | [] => []
  | i :: rest =>
      match deserialize serializer i ctx with
      | Raise (ValidationException e) => e :: rejected serializer ctx rest
      | _ => rejected serializer ctx rest
      end
  end.

(** A call that either returns or raises a validation error. *)
Definition validation_only {A : Type} (r : result A) : Prop :=
  forall x, r = Raise x -> exists e, x = ValidationException e.

(** The record builder's pass over its fields, told without the loop's
    bookkeeping: every field is called once, in order, on the accumulator
    the field before it left, whether that one returned or raised. *)
Fixpoint attempts (fields : list (@FieldTranslator context)) (source : val)
    (ctx : context) (target : dict) : list (dict * result unit) :=
  match fields with
  | [] => []
  | field :: rest =>
      let r := fdeserialize field source target ctx in
      r :: attempts rest source ctx (fst r)
  end.

Fixpoint final_target (fields : list (@FieldTranslator context)) (source : val)
    (ctx : context) (target : dict) : dict :=
  match fields with
  | [] => target
  | field :: rest =>
      final_target rest source ctx (fst (fdeserialize field source target ctx))
  end.

(** The entries of the mappings raised along a pass, oldest first. *)
Fixpoint raised_entries (calls : list (dict * result unit)) : dict :=
  match calls with
  | [] => []
  | (_, Raise (ValidationException (VDict d))) :: rest => d ++ raised_entries rest
  | _ :: rest => raised_entries rest
  end.

(** A field call that returned, or raised a validation error carrying a
    mapping. *)
Definition returned_or_mapping (call : dict * result unit) : Prop :=
  snd call = Ok tt \/
  exists d, snd call = Raise (ValidationException (VDict d)).

(** The arguments of one [dict_field] call that leaves the getter to its
    default. *)
Record field_desc : Type := {
  source_name : string;
  target_name : option string;
  validators_of : option (list (@validator context));
  multiple_of : bool;
  formatters_of : option (list (@formatter context))
}.

Definition dict_field_of (f : field_desc) : FieldTranslator :=
  dict_field (source_name f) (target_name f) (validators_of f) (multiple_of f)
    None (formatters_of f).

Definition external_name (f : field_desc) : string :=
  name_or (target_name f) (source_name f).

(** Validators and formatters that hand back what they are given. *)
Definition returns_argument (g : val -> context -> result val) : Prop :=
  forall v ctx, g v ctx = Ok v.

Definition identity_preserving (f : field_desc) : Prop :=
  Forall returns_argument (list_or_empty (validators_of f)) /\
  Forall returns_argument (list_or_empty (formatters_of f)).

(** A mapping that fits a list of fields under the names [name] gives
    them: a dictionary whose keys are exactly those names, holding a list
    wherever the field is a list field. *)
Definition fits (name : field_desc -> string) (fields : list field_desc)
    (d : dict) : Prop :=
  well_formed (VDict d) = true /\
  Permutation (dict_keys d) (map (fun f => KStr (name f)) fields) /\
  forall f, In f fields -> multiple_of f = true ->
            exists l, dict_lookup (KStr (name f)) d = Some (VList l).

End Descriptions.

(** Sample validators, over the trivial context. *)
Definition always_fail (reason : string) : @validator unit :=
  fun _ _ => Raise (ValidationException (VStr reason)).

Definition reject_even : @validator unit :=
  fun v _ =>
    match v with
    | VInt z => if Z.even z then Raise (ValidationException (VStr "even")) else Ok v
    | _ => Ok v
    end.

Definition increment : @validator unit :=
  fun v _ =>
    match v with
    | VInt z => Ok (VInt (z + 1))
    | _ => Raise TypeError
    end.

(** A record with one number that must be odd, and a list of such
    records. *)
Definition odd_record : @Translator unit :=
  serializer [dict_field "n" None (Some [reject_even]) false None None].

Definition odd_records : @FieldTranslator unit :=
  many "xs" None odd_record None None.

Definition number (z : Z) : val := VDict [(KStr "n", VInt z)].

(** A nested record under ["home"], and a two-field record that renames
    ["a"] to ["b"] and keeps a list of tags. *)
Definition home : @FieldTranslator unit := child "home" None odd_record None None.

Definition renamed_and_tags : list (@field_desc unit) :=
  [ {| source_name := "a"; target_name := Some "b"; validators_of := None;
       multiple_of := false; formatters_of := None |};
    {| source_name := "tags"; target_name := None; validators_of := None;
       multiple_of := true; formatters_of := None |} ].

(** A record with the single attribute field ["a"]. *)
Definition attribute_record : @Translator unit :=
  serializer [field "a" None None false None None].

(** ** Further descriptions *)

Section Constructors.

Context {context : Type}.

(** A field translator made by one of the four constructors, with its
    [source_field] and the [target_field] it ends up with. *)
Inductive built : @FieldTranslator context -> string -> string -> Prop :=
| built_field source_field target_field validators multiple attr_getter formatters :
    built (field source_field target_field validators multiple attr_getter formatters)
      source_field (name_or target_field source_field)
| built_dict_field source_field target_field validators multiple attr_getter
    formatters :
    built (dict_field source_field target_field validators multiple attr_getter
             formatters)
      source_field (name_or target_field source_field)
| built_child source_field target_field serializer validators attr_getter :
    built (child source_field target_field serializer validators attr_getter)
      source_field (name_or target_field source_field)
| built_many source_field target_field serializer validators attr_getter :
    built (many source_field target_field serializer validators attr_getter)
      source_field (name_or target_field source_field).

(** The read strategy [dict_field] installs: [lambda d: d.get(name)]. *)
Definition key_getter (name : string) : getter :=
  fun d => py_get d (KStr name) VNone.

End Constructors.

(** Whether an attribute path has a dot in it. *)
Fixpoint dotted (s : string) : bool :=
  match s with
  | EmptyString => false
  | String c s' => Ascii.eqb c "."%char || dotted s'
  end.

(** An attribute name without dots that does not start with an
    underscore: one that a plain object answers only if it is among its
    instance attributes. *)
Definition plain_name (s : string) : bool :=
  negb (dotted s) &&
  match s with
  | EmptyString => true
  | String c _ => negb (Ascii.eqb c "_"%char)
  end.

(** Sample formatters, over the trivial context. *)
Definition plus_one : @formatter unit :=
  fun v _ =>
    match v with
    | VInt z => Ok (VInt (z + 1))
    | _ => Ok v
    end.

Definition double : @formatter unit :=
  fun v _ =>
    match v with
    | VInt z => Ok (VInt (2 * z))
    | _ => Ok v
    end.

(** A validator that trips over anything but an integer. *)
Definition broken : @validator unit :=
  fun v _ =>
    match v with
    | VInt _ => Ok v
    | _ => Raise TypeError
    end.

(** A record of one plain number, read by key on both sides, and a list
    of such records kept under ["items"] inside and ["data"] outside. *)
Definition plain_record : @Translator unit :=
  serializer [dict_field "n" None None false None None].

Definition plain_records : @FieldTranslator unit :=
  many "items" (Some "data") plain_record None (Some (key_getter "items")).

Definition plain_child : @FieldTranslator unit :=
  child "item" (Some "datum") plain_record None (Some (key_getter "item")).

(** ** The validator chain *)

Section ValidatorChain.

Context {context : Type}.
Implicit Types (ctx : context) (validators : list (@validator context)).

Lemma run_validators_loop_acc validators ctx value acc :
  run_validators_loop validators ctx value acc =
  do r <- run_validators_loop validators ctx value [];
  Ok (fst r, acc ++ snd r).
Proof.
  revert value acc.
  induction validators as [|f fs IH]; intros value acc; simpl.
  - now rewrite app_nil_r.
  - destruct (f value ctx) as [v'|[e| | |]]; auto.
    rewrite (IH value (acc ++ [e])), (IH value [e]).
    destruct (run_validators_loop fs ctx value []) as [[final errs]|]; simpl; auto.
    now rewrite <- app_assoc.
Qed.

Lemma run_validators_nil value ctx :
  run_validators value (@nil (@validator context)) ctx = Ok (value, []).
Proof. reflexivity. Qed.

Lemma run_validators_pass value value' f validators ctx :
  f value ctx = Ok value' ->
  run_validators value (f :: validators) ctx = run_validators value' validators ctx.
Proof. unfold run_validators; simpl; now intros ->. Qed.

Lemma run_validators_record value e f validators ctx :
  f value ctx = Raise (ValidationException e) ->
  run_validators value (f :: validators) ctx =
  do r <- run_validators value validators ctx; Ok (fst r, e :: snd r).
Proof.
  unfold run_validators; simpl; intros ->.
  now rewrite run_validators_loop_acc.
Qed.

Lemma run_validators_other value x f validators ctx :
  f value ctx = Raise x ->
  (forall e, x <> ValidationException e) ->
  run_validators value (f :: validators) ctx = Raise x.
Proof.
  unfold run_validators; simpl; intros -> Hx.
  destruct x; auto. now destruct (Hx errors).
Qed.

Lemma chain_sound ctx value validators final errors :
  chain ctx value validators final errors ->
  run_validators value validators ctx = Ok (final, errors).
Proof.
  induction 1 as [v|v v' final f fs errors Hf _ IH|v final e f fs errors Hf _ IH].
  - reflexivity.
  - now rewrite (run_validators_pass _ _ _ _ _ Hf).
  - now rewrite (run_validators_record _ _ _ _ _ Hf), IH.
Qed.

Lemma chain_complete ctx validators : forall value final errors,
  run_validators value validators ctx = Ok (final, errors) ->
  chain ctx value validators final errors.
Proof.
  induction validators as [|f fs IH]; intros value final errors H.
  - rewrite run_validators_nil in H. injection H as <- <-. constructor.
  - destruct (f value ctx) as [v'|x] eqn:Hf.
    + rewrite (run_validators_pass _ _ _ _ _ Hf) in H.
      eapply chain_pass; eauto.
    + destruct x as [e| | |];
        try (rewrite (run_validators_other _ _ _ _ _ Hf) in H; discriminate).
      rewrite (run_validators_record _ _ _ _ _ Hf) in H.
      destruct (run_validators value fs ctx) as [[final' errs']|] eqn:Hr;
        simpl in H; [|discriminate].
      injection H as <- <-.
      eapply chain_record; eauto.
Qed.

Lemma all_pass_chain ctx value validators final :
  all_pass ctx value validators final -> chain ctx value validators final [].
Proof. induction 1; econstructor; eauto. Qed.

(** C2: [run_validators] returns [(final, errors)] exactly when the chain
    read off the documentation leads from the value to [final] recording
    [errors]: each validator is fed the result of the one before, a
    validator that raises a validation error is recorded and the value it
    was given is carried on.  When no validator raises, the error list is
    empty and the value is the fully transformed one. *)
Theorem run_validators_chain (value : val) validators ctx :
  (forall final errors,
      run_validators value validators ctx = Ok (final, errors) <->
      chain ctx value validators final errors) /\
  (forall final,
      all_pass ctx value validators final ->
      run_validators value validators ctx = Ok (final, [])).
Proof.
  split.
  - intros final errors; split; [apply chain_complete | apply chain_sound].
  - intros final H. now apply chain_sound, all_pass_chain.
Qed.

End ValidatorChain.

(** An incrementing validator, a failing one, and another incrementing
    one: the failure is recorded and the last validator sees the value the
    first one produced. *)
Lemma run_validators_chain_witness :
  run_validators (VInt 1) [increment; always_fail "no"; increment] tt =
  Ok (VInt 3, [VStr "no"]) /\
  run_validators (VInt 1) [increment; increment] tt = Ok (VInt 3, []).
Proof.
  split.
  - apply (proj1 (run_validators_chain (VInt 1) [increment; always_fail "no"; increment] tt)).
    eapply chain_pass; [reflexivity|].
    eapply chain_record; [reflexivity|].
    eapply chain_pass; [reflexivity|].
    apply chain_done.
  - apply (proj2 (run_validators_chain (VInt 1) [increment; increment] tt)).
    eapply all_pass_step; [reflexivity|].
    eapply all_pass_step; [reflexivity|].
    apply all_pass_done.
Defined.

(** ** Dictionaries *)

Lemma key_eqb_eq (a b : key) : key_eqb a b = true <-> a = b.
Proof.
  destruct a, b; simpl; split; intros H; try discriminate; try reflexivity.
  - apply Z.eqb_eq in H. now subst.
  - injection H as ->. apply Z.eqb_refl.
  - apply String.eqb_eq in H. now subst.
  - injection H as ->. apply String.eqb_refl.
Qed.

Lemma key_eqb_refl (k : key) : key_eqb k k = true.
Proof. now apply key_eqb_eq. Qed.

Lemma key_eqb_neq (a b : key) : key_eqb a b = false <-> a <> b.
Proof.
  rewrite <- key_eqb_eq. destruct (key_eqb a b); split; congruence.
Qed.

Lemma dict_lookup_set_same k v d : dict_lookup k (dict_set k v d) = Some v.
Proof.
  induction d as [|[k' v'] d IH]; simpl.
  - now rewrite key_eqb_refl.
  - destruct (key_eqb k k') eqn:E; simpl; rewrite E; auto.
Qed.

Lemma dict_lookup_set_other k k' v d :
  k <> k' -> dict_lookup k (dict_set k' v d) = dict_lookup k d.
Proof.
  intros Hk. induction d as [|[k2 v2] d IH]; simpl.
  - apply key_eqb_neq in Hk. now rewrite Hk.
  - destruct (key_eqb k' k2) eqn:E; simpl.
    + apply key_eqb_eq in E; subst k2.
      apply key_eqb_neq in Hk. now rewrite Hk.
    + now rewrite IH.
Qed.

Lemma dict_lookup_none k d : dict_lookup k d = None <-> ~ In k (dict_keys d).
Proof.
  induction d as [|[k' v'] d IH]; simpl.
  - tauto.
  - destruct (key_eqb k k') eqn:E.
    + apply key_eqb_eq in E. subst. split; [discriminate | tauto].
    + apply key_eqb_neq in E. rewrite IH. split; intros H.
      * intros [H1|H1]; [congruence | tauto].
      * tauto.
Qed.

Lemma dict_set_fresh k v d :
  ~ In k (dict_keys d) -> dict_set k v d = d ++ [(k, v)].
Proof.
  induction d as [|[k' v'] d IH]; simpl; intros H; auto.
  destruct (key_eqb k k') eqn:E.
  - apply key_eqb_eq in E. subst. tauto.
  - rewrite IH; tauto.
Qed.

Lemma dict_lookup_app k d1 d2 :
  dict_lookup k (d1 ++ d2) =
  match dict_lookup k d1 with
  | Some v => Some v
  | None => dict_lookup k d2
  end.
Proof.
  induction d1 as [|[k' v'] d1 IH]; simpl; auto.
  destruct (key_eqb k k'); auto.
Qed.

Lemma dict_keys_set k v d :
  forall k', In k' (dict_keys (dict_set k v d)) <-> k' = k \/ In k' (dict_keys d).
Proof.
  intros k'. induction d as [|[k2 v2] d IH]; simpl.
  - split; intros [H|H]; auto; tauto.
  - destruct (key_eqb k k2) eqn:E; simpl.
    + apply key_eqb_eq in E. subst. split; intros H; [tauto|].
      destruct H as [H|H]; auto.
    + rewrite IH. tauto.
Qed.

(** ** Scalar fields *)

Section ScalarField.

Context {context : Type}.
Implicit Types (ctx : context) (validators : list (@validator context)).

Lemma field_validate_outcome validators value field ctx final errors :
  run_validators value validators ctx = Ok (final, errors) ->
  field_validate validators value field ctx =
  match errors with
  | [] => Ok final
  | _ :: _ => Raise (ValidationException (VDict [(field, VList errors)]))
  end.
Proof. unfold field_validate; now intros ->. Qed.

Lemma index_errors_lookup (outcomes : list (val * list val)) : forall i n,
  dict_lookup (KInt (Z.of_nat n)) (index_errors i outcomes) =
  if (n <? i)%nat then None
  else match nth_error outcomes (n - i) with
       | Some (_, e :: es) => Some (VList (e :: es))
       | _ => None
       end.
Proof.
  induction outcomes as [|[v errs] rest IH]; intros i n; simpl.
  - destruct (n <? i)%nat; auto. now destruct (n - i).
  - assert (Hrest : dict_lookup (KInt (Z.of_nat n)) (index_errors (S i) rest) =
                    if (n <=? i)%nat then None
                    else match nth_error rest (n - S i) with
                         | Some (_, e :: es) => Some (VList (e :: es))
                         | _ => None
                         end).
    { rewrite IH. destruct (Nat.ltb_spec n (S i)), (Nat.leb_spec n i);
        auto; lia. }
    destruct (Nat.ltb_spec n i) as [Hlt|Hge].
    + destruct errs as [|e es]; simpl.
      * rewrite Hrest. destruct (Nat.leb_spec n i); auto; lia.
      * destruct (Z.eqb_spec (Z.of_nat n) (Z.of_nat i)); [lia|].
        rewrite Hrest. destruct (Nat.leb_spec n i); auto; lia.
    + destruct (Nat.eq_dec n i) as [->|Hne].
      * rewrite Nat.sub_diag; simpl.
        destruct errs as [|e es]; simpl.
        -- rewrite Hrest. now rewrite Nat.leb_refl.
        -- now rewrite Z.eqb_refl.
      * assert (Hsub : n - i = S (n - S i)) by lia.
        rewrite Hsub; simpl.
        destruct errs as [|e es]; simpl.
        -- rewrite Hrest. destruct (Nat.leb_spec n i); auto; lia.
        -- destruct (Z.eqb_spec (Z.of_nat n) (Z.of_nat i)); [lia|].
           rewrite Hrest. destruct (Nat.leb_spec n i); auto; lia.
Qed.

Lemma index_errors_keys (outcomes : list (val * list val)) : forall i k,
  In k (dict_keys (index_errors i outcomes)) ->
  exists n, k = KInt (Z.of_nat n) /\ i <= n < i + List.length outcomes.
Proof.
  induction outcomes as [|[v errs] rest IH]; intros i k; simpl; [tauto|].
  destruct errs as [|e es]; simpl.
  - intros H. destruct (IH _ _ H) as (n & -> & Hn). exists n. split; auto. lia.
  - intros [<-|H].
    + exists i. split; auto. lia.
    + destruct (IH _ _ H) as (n & -> & Hn). exists n. split; auto. lia.
Qed.

Lemma index_errors_clean (outcomes : list (val * list val)) i :
  Forall (fun o => snd o = []) outcomes -> index_errors i outcomes = [].
Proof.
  intros H. revert i. induction H as [|[v errs] rest Hv _ IH]; intros i; simpl; auto.
  simpl in Hv. subst. apply IH.
Qed.

Lemma index_errors_dirty (outcomes : list (val * list val)) i :
  Exists (fun o => snd o <> []) outcomes -> index_errors i outcomes <> [].
Proof.
  intros H. revert i. induction H as [[v errs] rest Hv|[v errs] rest _ IH]; intros i; simpl.
  - simpl in Hv. destruct errs; [congruence | discriminate].
  - destruct errs; [apply IH | discriminate].
Qed.

Lemma filter_clean_all (outcomes : list (val * list val)) :
  Forall (fun o => snd o = []) outcomes -> filter clean outcomes = outcomes.
Proof.
  induction 1 as [|[v errs] rest Hv _ IH]; simpl; auto.
  simpl in Hv. subst. unfold clean at 1. simpl. now rewrite IH.
Qed.

Lemma field_multiple_loop_outcomes validators ctx items outcomes :
  Forall2 (fun v o => run_validators v validators ctx = Ok o) items outcomes ->
  forall i errors new_value,
    (forall k, In k (dict_keys errors) -> exists n, k = KInt (Z.of_nat n) /\ n < i) ->
    field_multiple_loop validators ctx items i errors new_value =
    Ok (errors ++ index_errors i outcomes,
        new_value ++ map fst (filter clean outcomes)).
Proof.
  induction 1 as [|v [final errs] items outcomes Hv _ IH];
    intros i errors new_value Hkeys; simpl.
  - now rewrite !app_nil_r.
  - rewrite (field_validate_outcome _ _ _ _ _ _ Hv).
    destruct errs as [|e es]; unfold clean at 1; simpl.
    + rewrite IH.
      * now rewrite <- app_assoc.
      * intros k Hk. destruct (Hkeys k Hk) as (n & -> & Hn). exists n. split; auto.
    + unfold dict_update; simpl.
      rewrite dict_set_fresh.
      * rewrite IH.
        -- now rewrite <- app_assoc.
        -- intros k Hk. unfold dict_keys in Hk. rewrite map_app in Hk.
           apply in_app_or in Hk. destruct Hk as [Hk|[<-|[]]].
           ++ destruct (Hkeys k Hk) as (n & -> & Hn). exists n. split; auto.
           ++ exists i. split; auto.
      * intros Hk. destruct (Hkeys _ Hk) as (n & Hn & Hlt).
        injection Hn as Hn. lia.
Qed.

Lemma field_multiple_call
    (source_field : string) (target_field : option string)
    (validators : option (list validator)) (attr_getter : option getter)
    (formatters : option (list formatter))
    (d target : dict) ctx (items : list val) (outcomes : list (val * list val)) :
  dict_lookup (KStr (name_or target_field source_field)) d = Some (VList items) ->
  Forall2 (fun v o => run_validators v (list_or_empty validators) ctx = Ok o)
    items outcomes ->
  fdeserialize
    (field source_field target_field validators true attr_getter formatters)
    (VDict d) target ctx =
  assign target (KStr source_field)
    (match index_errors 0 outcomes with
     | [] => Ok (VList (map fst (filter clean outcomes)))
     | _ :: _ =>
         Raise (ValidationException
                  (VDict [(KStr (name_or target_field source_field),
                           VDict (index_errors 0 outcomes))]))
     end).
Proof.
  intros Hget Hrun. simpl. unfold field_deserialize; simpl.
  rewrite Hget; simpl.
  rewrite (field_multiple_loop_outcomes _ _ _ _ Hrun); simpl; auto.
  intros k [].
Qed.

Lemma field_single_call
    (source_field : string) (target_field : option string)
    (validators : option (list validator)) (attr_getter : option getter)
    (formatters : option (list formatter))
    (d target : dict) ctx (final : val) (errors : list val) :
  let tf := name_or target_field source_field in
  run_validators
    (match dict_lookup (KStr tf) d with Some x => x | None => VNone end)
    (list_or_empty validators) ctx = Ok (final, errors) ->
  fdeserialize
    (field source_field target_field validators false attr_getter formatters)
    (VDict d) target ctx =
  match errors with
  | [] => (dict_set (KStr source_field) final target, Ok tt)
  | _ :: _ =>
      (target, Raise (ValidationException (VDict [(KStr tf, VList errors)])))
  end.
Proof.
  intros tf Hrun. simpl. unfold field_deserialize; simpl. fold tf.
  destruct (dict_lookup (KStr tf) d); simpl;
    rewrite (field_validate_outcome _ _ _ _ _ _ Hrun); now destruct errors.
Qed.

(** C3: a field built with [multiple=True], given a mapping that holds a
    list under [target_field], runs the validator chain on every element.
    When no chain records an error the list of validated elements is
    written under [source_field].  When at least one does, nothing is
    written and the validation error raised maps [target_field] to a
    mapping that has, under each position whose chain recorded errors,
    that list of errors, and has no other key. *)
Theorem field_multiple_deserialize
    (source_field : string) (target_field : option string)
    (validators : option (list validator)) (attr_getter : option getter)
    (formatters : option (list formatter))
    (d target : dict) ctx (items : list val) (outcomes : list (val * list val)) :
  let tf := name_or target_field source_field in
  let call :=
    fdeserialize
      (field source_field target_field validators true attr_getter formatters)
      (VDict d) target ctx in
  dict_lookup (KStr tf) d = Some (VList items) ->
  Forall2 (fun v o => run_validators v (list_or_empty validators) ctx = Ok o)
    items outcomes ->
  (Forall (fun o => snd o = []) outcomes ->
   call = (dict_set (KStr source_field) (VList (map fst outcomes)) target, Ok tt)) /\
  (Exists (fun o => snd o <> []) outcomes ->
   exists errors,
     call = (target,
             Raise (ValidationException (VDict [(KStr tf, VDict errors)]))) /\
     (forall i,
         dict_lookup (KInt (Z.of_nat i)) errors =
         match nth_error outcomes i with
         | Some (_, e :: es) => Some (VList (e :: es))
         | _ => None
         end) /\
     (forall k, In k (dict_keys errors) ->
                exists i, k = KInt (Z.of_nat i) /\ i < List.length items)).
Proof.
  intros tf call Hget Hrun.
  pose proof (field_multiple_call source_field target_field validators
                attr_getter formatters d target ctx items outcomes Hget Hrun)
    as Hcall.
  fold tf call in Hcall.
  split.
  - intros Hclean. rewrite Hcall, index_errors_clean, filter_clean_all; auto.
  - intros Hdirty. exists (index_errors 0 outcomes). repeat split.
    + rewrite Hcall.
      destruct (index_errors 0 outcomes) eqn:E; auto.
      now apply index_errors_dirty with (i := 0) in Hdirty.
    + intros i. rewrite index_errors_lookup. simpl. now rewrite Nat.sub_0_r.
    + intros k Hk. apply index_errors_keys in Hk.
      destruct Hk as (n & -> & Hn). exists n. split; auto.
      rewrite (Forall2_length Hrun). lia.
Qed.

(** C7, the list mode without the key: [source.get] gives [None], and
    [enumerate(None)] raises [TypeError], whatever the validators. *)
Theorem field_multiple_missing_key
    (source_field : string) (target_field : option string)
    (validators : option (list validator)) (attr_getter : option getter)
    (formatters : option (list formatter)) (d target : dict) ctx :
  dict_lookup (KStr (name_or target_field source_field)) d = None ->
  fdeserialize
    (field source_field target_field validators true attr_getter formatters)
    (VDict d) target ctx = (target, Raise TypeError).
Proof.
  intros H. simpl. unfold field_deserialize. simpl. now rewrite H.
Qed.

(** In the single-value mode a missing key is [None] handed to the
    validators, and only what they raise comes out. *)
Lemma field_single_missing_key
    (source_field : string) (target_field : option string)
    (validators : option (list validator)) (attr_getter : option getter)
    (formatters : option (list formatter)) (d target : dict) ctx :
  dict_lookup (KStr (name_or target_field source_field)) d = None ->
  fdeserialize
    (field source_field target_field validators false attr_getter formatters)
    (VDict d) target ctx =
  assign target (KStr source_field)
    (field_validate (list_or_empty validators) VNone
       (KStr (name_or target_field source_field)) ctx).
Proof.
  intros H. simpl. unfold field_deserialize. simpl. now rewrite H.
Qed.

End ScalarField.

(** The list [1, 2, 3] against a validator that rejects even numbers. *)
Lemma field_multiple_deserialize_witness :
  exists errors,
    fdeserialize (field "n" None (Some [reject_even]) true None None)
      (VDict [(KStr "n", VList [VInt 1; VInt 2; VInt 3])]) [] tt =
    ([], Raise (ValidationException (VDict [(KStr "n", VDict errors)]))) /\
    dict_lookup (KInt 1) errors = Some (VList [VStr "even"]) /\
    dict_lookup (KInt 0) errors = None /\
    dict_lookup (KInt 2) errors = None.
Proof.
  destruct (field_multiple_deserialize "n" None (Some [reject_even]) None None
              [(KStr "n", VList [VInt 1; VInt 2; VInt 3])] [] tt
              [VInt 1; VInt 2; VInt 3]
              [(VInt 1, []); (VInt 2, [VStr "even"]); (VInt 3, [])])
    as [_ H].
  - reflexivity.
  - repeat constructor.
  - destruct H as (errors & Hcall & Hlookup & _).
    + apply Exists_cons_tl, Exists_cons_hd. discriminate.
    + exists errors. split; [exact Hcall|].
      split; [exact (Hlookup 1)|]. split; [exact (Hlookup 0) | exact (Hlookup 2)].
Defined.

Lemma field_multiple_missing_key_witness :
  fdeserialize (field "n" None None true None None) (VDict []) [] tt =
  ([], Raise TypeError).
Proof.
  apply (field_multiple_missing_key "n" None None None None [] [] tt).
  reflexivity.
Defined.

(** ** Nested translators *)

Section Nested.

Context {context : Type}.
Implicit Types (ctx : context) (serializer : @Translator context)
  (validators : option (list (@validator context))).

Lemma pre_validate_outcome target_field validators sub_source ctx final errors :
  run_validators sub_source (list_or_empty validators) ctx = Ok (final, errors) ->
  pre_validate target_field validators sub_source ctx =
  match errors with
  | [] => Ok final
  | _ :: _ =>
      Raise (ValidationException (VDict [(KStr target_field, VList errors)]))
  end.
Proof.
  unfold pre_validate. destruct (list_or_empty validators) as [|f fs].
  - rewrite run_validators_nil. now intros [= <- <-].
  - now intros ->.
Qed.

Lemma child_call source_field target_field serializer validators attr_getter
    d target ctx final errors :
  let tf := name_or target_field source_field in
  run_validators
    (match dict_lookup (KStr tf) d with Some x => x | None => VNone end)
    (list_or_empty validators) ctx = Ok (final, errors) ->
  fdeserialize (child source_field target_field serializer validators attr_getter)
    (VDict d) target ctx =
  match errors with
  | [] =>
      match deserialize serializer final ctx with
      | Ok v => (dict_set (KStr source_field) v target, Ok tt)
      | Raise (ValidationException e) =>
          (target, Raise (ValidationException (VDict [(KStr tf, e)])))
      | Raise other => (target, Raise other)
      end
  | _ :: _ =>
      (target, Raise (ValidationException (VDict [(KStr tf, VList errors)])))
  end.
Proof.
  intros tf Hrun. simpl. unfold child_deserialize; simpl. fold tf.
  destruct (dict_lookup (KStr tf) d); simpl;
    rewrite (pre_validate_outcome _ _ _ _ _ _ Hrun);
    (destruct errors; simpl; [|reflexivity]);
    now destruct (deserialize serializer final ctx) as [r|[x| | |]].
Qed.

(** C4: [child.deserialize] on a mapping.  When the pre-validators
    record an error, the call raises it under [target_field] whatever the
    sub-translator is, which is therefore not consulted.  When they
    record none (or there are none), the validated sub-value goes to the
    sub-translator: a validation error it raises comes back nested under
    [target_field], and a result it returns is written under
    [source_field]. *)
Theorem child_deserialize_delegation
    (source_field : string) (target_field : option string) validators
    (attr_getter : option getter) (d target : dict) ctx :
  let tf := name_or target_field source_field in
  let raw := match dict_lookup (KStr tf) d with Some x => x | None => VNone end in
  let call serializer :=
    fdeserialize (child source_field target_field serializer validators attr_getter)
      (VDict d) target ctx in
  (forall final e es,
      run_validators raw (list_or_empty validators) ctx = Ok (final, e :: es) ->
      forall serializer,
        call serializer =
        (target,
         Raise (ValidationException (VDict [(KStr tf, VList (e :: es))])))) /\
  (forall sub,
      run_validators raw (list_or_empty validators) ctx = Ok (sub, []) ->
      forall serializer,
        (forall e,
            deserialize serializer sub ctx = Raise (ValidationException e) ->
            call serializer =
            (target, Raise (ValidationException (VDict [(KStr tf, e)])))) /\
        (forall v,
            deserialize serializer sub ctx = Ok v ->
            call serializer = (dict_set (KStr source_field) v target, Ok tt))).
Proof.
  intros tf raw call. split.
  - intros final e es Hrun serializer. unfold call.
    now rewrite (child_call _ _ _ _ _ _ _ _ _ _ Hrun).
  - intros sub Hrun serializer. unfold call.
    rewrite (child_call _ _ _ _ _ _ _ _ _ _ Hrun).
    split; [intros e He | intros v Hv].
    + now rewrite He.
    + now rewrite Hv.
Qed.

(** C10: whenever [child.deserialize] raises, whether from the
    pre-validators or from the sub-translator, the accumulator it was given
    is the accumulator it leaves. *)
Theorem child_deserialize_error_keeps_target
    (source_field : string) (target_field : option string) serializer validators
    (attr_getter : option getter) (source : val) (target : dict) ctx (e : exn) :
  snd (fdeserialize
         (child source_field target_field serializer validators attr_getter)
         source target ctx) = Raise e ->
  fst (fdeserialize
         (child source_field target_field serializer validators attr_getter)
         source target ctx) = target.
Proof.
  simpl. unfold child_deserialize, assign.
  match goal with |- context [match ?r with Ok _ => _ | Raise _ => _ end] =>
    destruct r end; simpl; [discriminate | reflexivity].
Qed.

Lemma many_loop_split serializer ctx items :
  Forall (fun i => validation_only (deserialize serializer i ctx)) items ->
  forall collector errors,
    many_loop serializer ctx items collector errors =
    Ok (collector ++ accepted serializer ctx items,
        errors ++ rejected serializer ctx items).
Proof.
  induction 1 as [|i rest Hi _ IH]; intros collector errors; simpl.
  - now rewrite !app_nil_r.
  - destruct (deserialize serializer i ctx) as [x|x] eqn:E.
    + rewrite IH. now rewrite <- app_assoc.
    + destruct (Hi x eq_refl) as [e ->].
      rewrite IH. now rewrite <- app_assoc.
Qed.

Lemma rejected_nonempty serializer ctx items :
  Exists (fun i => exists e, deserialize serializer i ctx = Raise (ValidationException e))
    items ->
  rejected serializer ctx items <> [].
Proof.
  induction 1 as [i rest [e He]|i rest _ IH]; simpl.
  - rewrite He. discriminate.
  - destruct (deserialize serializer i ctx) as [x|[e| | |]]; auto. discriminate.
Qed.

Lemma accepted_rejected_length serializer ctx items :
  Forall (fun i => validation_only (deserialize serializer i ctx)) items ->
  List.length (accepted serializer ctx items) +
  List.length (rejected serializer ctx items) = List.length items.
Proof.
  induction 1 as [|i rest Hi _ IH]; simpl; auto.
  destruct (deserialize serializer i ctx) as [x|x] eqn:E; simpl.
  - now rewrite IH.
  - destruct (Hi x eq_refl) as [e ->]. simpl. rewrite <- IH. lia.
Qed.

Lemma many_call source_field target_field serializer validators attr_getter
    d target ctx final errors :
  let tf := name_or target_field source_field in
  run_validators
    (match dict_lookup (KStr tf) d with Some x => x | None => VList [] end)
    (list_or_empty validators) ctx = Ok (final, errors) ->
  fdeserialize (many source_field target_field serializer validators attr_getter)
    (VDict d) target ctx =
  match errors with
  | [] =>
      match (do items <- py_iter final; many_loop serializer ctx items [] []) with
      | Raise x => (target, Raise x)
      | Ok (collector, []) =>
          (dict_set (KStr source_field) (VList collector) target, Ok tt)
      | Ok (collector, errs) =>
          (dict_set (KStr source_field) (VList collector) target,
           Raise (ValidationException (VDict [(KStr tf, VList errs)])))
      end
  | _ :: _ =>
      (target, Raise (ValidationException (VDict [(KStr tf, VList errors)])))
  end.
Proof.
  intros tf Hrun. simpl. unfold many_deserialize; simpl. fold tf.
  destruct (dict_lookup (KStr tf) d); simpl;
    rewrite (pre_validate_outcome _ _ _ _ _ _ Hrun);
    (destruct errors; simpl; [|reflexivity]);
    destruct (py_iter final) as [items|]; simpl; auto;
    destruct (many_loop serializer ctx items [] []) as [[c [|x xs]]|]; auto.
Qed.

(** C5: [many.deserialize] on a mapping whose list passes the
    pre-validators and has at least one element the sub-translator
    rejects.  The call raises one validation error mapping [target_field]
    to the list of the rejected elements' payloads, and the accumulator it
    leaves has, under [source_field], the list of the results of the
    accepted elements only, which is shorter than the input list. *)
Theorem many_deserialize_partial
    (source_field : string) (target_field : option string) serializer validators
    (attr_getter : option getter) (d target : dict) ctx (sub : val)
    (items : list val) :
  let tf := name_or target_field source_field in
  let raw :=
    match dict_lookup (KStr tf) d with Some x => x | None => VList [] end in
  let call :=
    fdeserialize (many source_field target_field serializer validators attr_getter)
      (VDict d) target ctx in
  run_validators raw (list_or_empty validators) ctx = Ok (sub, []) ->
  py_iter sub = Ok items ->
  Forall (fun i => validation_only (deserialize serializer i ctx)) items ->
  Exists (fun i => exists e,
              deserialize serializer i ctx = Raise (ValidationException e)) items ->
  call =
    (dict_set (KStr source_field) (VList (accepted serializer ctx items)) target,
     Raise (ValidationException
              (VDict [(KStr tf, VList (rejected serializer ctx items))]))) /\
  rejected serializer ctx items <> [] /\
  dict_lookup (KStr source_field) (fst call) =
    Some (VList (accepted serializer ctx items)) /\
  List.length (accepted serializer ctx items) < List.length items.
Proof.
  intros tf raw call Hrun Hiter Hvalid Hrej.
  pose proof (rejected_nonempty _ _ _ Hrej) as Hne.
  assert (Hcall : call =
    (dict_set (KStr source_field) (VList (accepted serializer ctx items)) target,
     Raise (ValidationException
              (VDict [(KStr tf, VList (rejected serializer ctx items))])))).
  { unfold call. rewrite (many_call _ _ _ _ _ _ _ _ _ _ Hrun).
    rewrite Hiter; simpl. rewrite (many_loop_split _ _ _ Hvalid); simpl.
    destruct (rejected serializer ctx items); [congruence | reflexivity]. }
  repeat split; auto.
  - rewrite Hcall; simpl. apply dict_lookup_set_same.
  - pose proof (accepted_rejected_length _ _ _ Hvalid).
    destruct (rejected serializer ctx items); [congruence|]. simpl in *. lia.
Qed.

End Nested.

(** ** Merging error mappings *)

Lemma dict_update_app (e a b : dict) :
  dict_update e (a ++ b) = dict_update (dict_update e a) b.
Proof. unfold dict_update. apply fold_left_app. Qed.

Lemma dict_set_not_nil k v d : dict_set k v d <> [].
Proof.
  destruct d as [|[k' v'] d]; simpl; [discriminate|].
  destruct (key_eqb k k'); discriminate.
Qed.

Lemma dict_update_not_nil (l e : dict) : l <> [] -> dict_update e l <> [].
Proof.
  revert e. induction l as [|[k v] l IH]; intros e H; [congruence|].
  unfold dict_update; simpl. destruct l as [|kv l].
  - simpl. apply dict_set_not_nil.
  - apply (IH (dict_set k v e)). discriminate.
Qed.

Lemma dict_update_keys (l e : dict) k :
  In k (dict_keys (dict_update e l)) <-> In k (dict_keys e) \/ In k (dict_keys l).
Proof.
  revert e. induction l as [|[k' v'] l IH]; intros e.
  - simpl. tauto.
  - change (dict_update e ((k', v') :: l)) with (dict_update (dict_set k' v' e) l).
    rewrite IH, dict_keys_set. simpl. intuition.
Qed.

Lemma dict_update_lookup_absent (l e : dict) k :
  ~ In k (dict_keys l) -> dict_lookup k (dict_update e l) = dict_lookup k e.
Proof.
  revert e. induction l as [|[k' v'] l IH]; intros e H; [reflexivity|].
  change (dict_update e ((k', v') :: l)) with (dict_update (dict_set k' v' e) l).
  simpl in H. rewrite IH by tauto.
  apply dict_lookup_set_other. intros ->. tauto.
Qed.

(** The last entry written under a key is the one a lookup finds. *)
Lemma dict_update_lookup_last (l1 l2 e : dict) k v :
  ~ In k (dict_keys l2) ->
  dict_lookup k (dict_update e (l1 ++ (k, v) :: l2)) = Some v.
Proof.
  intros H. rewrite dict_update_app.
  change (dict_update (dict_update e l1) ((k, v) :: l2))
    with (dict_update (dict_set k v (dict_update e l1)) l2).
  rewrite dict_update_lookup_absent by assumption.
  apply dict_lookup_set_same.
Qed.

Lemma dict_lookup_split (d : dict) k v :
  dict_lookup k d = Some v ->
  NoDup (dict_keys d) ->
  exists d1 d2, d = d1 ++ (k, v) :: d2 /\ ~ In k (dict_keys d2).
Proof.
  induction d as [|[k' v'] d IH]; simpl; [discriminate|].
  intros Hl Hnd. inversion Hnd as [|? ? Hnotin Hnd']; subst.
  destruct (key_eqb k k') eqn:E.
  - apply key_eqb_eq in E. subst k'. injection Hl as ->.
    exists [], d. split; auto.
  - destruct (IH Hl Hnd') as (d1 & d2 & -> & Hd2).
    exists ((k', v') :: d1), d2. split; auto.
Qed.

(** ** The record builder *)

Section Record.

Context {context : Type}.
Implicit Types (ctx : context) (fields : list (@FieldTranslator context)).

Lemma raised_entries_app (a b : list (dict * result unit)) :
  raised_entries (a ++ b) = raised_entries a ++ raised_entries b.
Proof.
  induction a as [|[t [u|[[]| | |]]] a IH]; simpl; auto.
  now rewrite IH, app_assoc.
Qed.

Lemma attempts_length fields source ctx : forall target,
  List.length (attempts fields source ctx target) = List.length fields.
Proof.
  induction fields as [|f rest IH]; intros target; simpl;
    [reflexivity | now rewrite IH].
Qed.

Lemma deserialize_loop_attempts fields source ctx : forall target errors,
  Forall returned_or_mapping (attempts fields source ctx target) ->
  deserialize_loop fields source ctx target errors =
  Ok (final_target fields source ctx target,
      dict_update errors (raised_entries (attempts fields source ctx target))).
Proof.
  induction fields as [|f rest IH]; intros target errors H; simpl.
  - reflexivity.
  - simpl in H. inversion H as [|? ? Hf Hrest]; subst.
    destruct (fdeserialize f source target ctx) as [target' r] eqn:E.
    unfold returned_or_mapping in Hf. simpl in *.
    destruct Hf as [Hr|[d Hr]]; subst r.
    + now rewrite IH.
    + simpl. rewrite IH by assumption. now rewrite dict_update_app.
Qed.

Lemma serializer_deserialize_attempts fields source ctx :
  Forall returned_or_mapping (attempts fields source ctx []) ->
  serializer_deserialize fields source ctx =
  match dict_update [] (raised_entries (attempts fields source ctx [])) with
  | [] => Ok (VDict (final_target fields source ctx []))
  | agg => Raise (ValidationException (VDict agg))
  end.
Proof.
  intros H. unfold serializer_deserialize.
  rewrite (deserialize_loop_attempts _ _ _ _ _ H); simpl.
  now destruct (dict_update [] _).
Qed.

Lemma raised_entries_none (calls : list (dict * result unit)) :
  Forall (fun a => snd a = Ok tt) calls -> raised_entries calls = [].
Proof.
  induction 1 as [|[t r] calls Hr _ IH]; simpl; auto.
  simpl in Hr. now subst.
Qed.

Lemma raised_entries_in (calls : list (dict * result unit)) a d k :
  In a calls ->
  snd a = Raise (ValidationException (VDict d)) ->
  In k (dict_keys d) ->
  In k (dict_keys (raised_entries calls)).
Proof.
  intros Ha Hd Hk. apply in_split in Ha. destruct Ha as (c1 & c2 & ->).
  rewrite raised_entries_app. destruct a as [t r]. simpl in Hd. subst r. simpl.
  unfold dict_keys. rewrite !map_app. apply in_or_app. right.
  apply in_or_app. now left.
Qed.

(** C1: the record builder's [deserialize], for fields that return or
    raise a validation error carrying a non-empty mapping.  Every field is
    called, on the accumulator left by the one before it, also after a
    field has raised.  When none raises, the result is the accumulator the
    last one left.  When some field raises, the call raises one validation
    error whose mapping is the raised mappings merged in order, so that
    every key of every raised mapping is a key of it. *)
Theorem serializer_deserialize_collects fields (source : val) ctx :
  let calls := attempts fields source ctx [] in
  Forall (fun a => snd a = Ok tt \/
                   exists d, d <> [] /\
                             snd a = Raise (ValidationException (VDict d)))
    calls ->
  List.length calls = List.length fields /\
  (Forall (fun a => snd a = Ok tt) calls ->
   serializer_deserialize fields source ctx =
   Ok (VDict (final_target fields source ctx []))) /\
  (Exists (fun a => snd a <> Ok tt) calls ->
   exists agg,
     serializer_deserialize fields source ctx =
     Raise (ValidationException (VDict agg)) /\
     agg = dict_update [] (raised_entries calls) /\
     forall a d k,
       In a calls ->
       snd a = Raise (ValidationException (VDict d)) ->
       In k (dict_keys d) -> In k (dict_keys agg)).
Proof.
  intros calls H.
  assert (Hmap : Forall returned_or_mapping calls).
  { eapply Forall_impl; [|exact H]. intros a [Ha|(d & _ & Ha)]; [now left|].
    right. now exists d. }
  split; [|split].
  - apply attempts_length.
  - intros Hok. rewrite (serializer_deserialize_attempts _ _ _ Hmap).
    fold calls. now rewrite (raised_entries_none _ Hok).
  - intros Hfail. exists (dict_update [] (raised_entries calls)).
    split; [|split; [reflexivity|]].
    + rewrite (serializer_deserialize_attempts _ _ _ Hmap). fold calls.
      assert (Hne : raised_entries calls <> []).
      { apply Exists_exists in Hfail. destruct Hfail as (a & Ha & Hbad).
        rewrite Forall_forall in H. destruct (H a Ha) as [Hok|(d & Hd & Hr)];
          [congruence|].
        destruct d as [|[k v] d]; [congruence|].
        intros Hnil.
        pose proof (raised_entries_in calls a ((k, v) :: d) k Ha Hr
                      (or_introl eq_refl)) as Hin.
        rewrite Hnil in Hin. destruct Hin. }
      pose proof (dict_update_not_nil _ [] Hne) as Hagg.
      destruct (dict_update [] (raised_entries calls)); [congruence | reflexivity].
    + intros a d k Ha Hd Hk. apply dict_update_keys. right.
      eapply raised_entries_in; eauto.
Qed.

(** An entry of a raised mapping is found in the aggregate unless a later
    raised mapping has the same key. *)
Lemma serializer_keeps_last_entry fields source ctx
    (before after : list (dict * result unit)) (target d : dict) k v :
  Forall returned_or_mapping (attempts fields source ctx []) ->
  attempts fields source ctx [] =
    before ++ (target, Raise (ValidationException (VDict d))) :: after ->
  NoDup (dict_keys d) ->
  dict_lookup k d = Some v ->
  ~ In k (dict_keys (raised_entries after)) ->
  exists agg,
    serializer_deserialize fields source ctx =
    Raise (ValidationException (VDict agg)) /\
    dict_lookup k agg = Some v.
Proof.
  intros Hmap Hcalls Hnd Hl Hlater.
  destruct (dict_lookup_split _ _ _ Hl Hnd) as (d1 & d2 & -> & Hd2).
  assert (Hfind : dict_lookup k
            (dict_update [] (raised_entries (attempts fields source ctx []))) =
            Some v).
  { rewrite Hcalls, raised_entries_app. simpl.
    rewrite <- app_assoc. simpl.
    rewrite app_assoc. apply dict_update_lookup_last.
    unfold dict_keys in *. rewrite map_app. intros Hin.
    apply in_app_or in Hin. tauto. }
  rewrite (serializer_deserialize_attempts _ _ _ Hmap).
  destruct (dict_update [] _) as [|kv agg] eqn:E.
  - discriminate.
  - exists (kv :: agg). split; auto.
Qed.

End Record.

(** Three scalar fields whose validators always fail. *)
Lemma serializer_deserialize_collects_witness :
  exists agg,
    serializer_deserialize
      [field "a" None (Some [always_fail "no a"]) false None None;
       field "b" None (Some [always_fail "no b"]) false None None;
       field "c" None (Some [always_fail "no c"]) false None None]
      (VDict [(KStr "a", VInt 1)]) tt =
    Raise (ValidationException (VDict agg)) /\
    In (KStr "a") (dict_keys agg) /\
    In (KStr "b") (dict_keys agg) /\
    In (KStr "c") (dict_keys agg).
Proof.
  destruct (serializer_deserialize_collects
              [field "a" None (Some [always_fail "no a"]) false None None;
               field "b" None (Some [always_fail "no b"]) false None None;
               field "c" None (Some [always_fail "no c"]) false None None]
              (VDict [(KStr "a", VInt 1)]) tt) as (_ & _ & H).
  - simpl.
    repeat (apply Forall_cons;
            [right; eexists; (split; [|reflexivity]); discriminate|]).
    apply Forall_nil.
  - destruct H as (agg & Hraise & Hagg & _).
    + apply Exists_cons_hd. discriminate.
    + exists agg. split; [exact Hraise|].
      rewrite Hagg. simpl. tauto.
Defined.

(** ** What the library's fields raise *)

Section Payloads.

Context {context : Type}.
Implicit Types (ctx : context) (serializer : @Translator context).

Lemma bind_raise {A B : Type} (r : result A) (k : A -> result B) (x : exn) :
  (do a <- r; k a) = Raise x ->
  r = Raise x \/ exists a, r = Ok a /\ k a = Raise x.
Proof.
  destruct r as [a|y]; simpl; intros H.
  - right. now exists a.
  - left. congruence.
Qed.

Lemma py_iter_raise (v : val) x : py_iter v = Raise x -> x = TypeError.
Proof. destruct v; simpl; congruence. Qed.

Lemma update_pairs_raise (items : list val) : forall d e,
  update_pairs d items <> Raise (ValidationException e).
Proof.
  induction items as [|item rest IH]; intros d e H; simpl in H; [discriminate|].
  apply bind_raise in H. destruct H as [H|(kv & _ & H)].
  - apply py_iter_raise in H. discriminate.
  - destruct kv as [|k [|v [|? ?]]]; try discriminate.
    apply bind_raise in H. destruct H as [H|(k' & _ & H)].
    + destruct k; discriminate.
    + now apply IH in H.
Qed.

Lemma py_update_raise (d : dict) (v : val) e :
  py_update d v <> Raise (ValidationException e).
Proof.
  intros H. destruct v; simpl in H; try discriminate.
  - now apply update_pairs_raise in H.
  - now apply update_pairs_raise in H.
Qed.

Lemma py_get_raise (v : val) k default e :
  py_get v k default <> Raise (ValidationException e).
Proof.
  destruct v; simpl; try discriminate.
  - destruct (dict_lookup k d); discriminate.
  - destruct (existsb _ attrs); discriminate.
Qed.

Lemma run_validators_loop_raise (validators : list (@validator context)) ctx :
  forall value acc e,
    run_validators_loop validators ctx value acc <>
    Raise (ValidationException e).
Proof.
  induction validators as [|f fs IH]; intros value acc e; simpl; [discriminate|].
  destruct (f value ctx) as [v'|[e'| | |]]; try discriminate; apply IH.
Qed.

Lemma field_validate_raise (validators : list (@validator context)) value
    field ctx e :
  field_validate validators value field ctx = Raise (ValidationException e) ->
  exists errors, e = VDict [(field, VList errors)].
Proof.
  unfold field_validate. intros H. apply bind_raise in H.
  destruct H as [H|([final errors] & _ & H)].
  - now apply run_validators_loop_raise in H.
  - simpl in H. destruct errors; [discriminate|]. injection H as <-. eauto.
Qed.

Lemma field_multiple_loop_raise (validators : list (@validator context)) ctx
    (items : list val) : forall i errors new_value e,
  field_multiple_loop validators ctx items i errors new_value <>
  Raise (ValidationException e).
Proof.
  induction items as [|v rest IH]; intros i errors new_value e; simpl;
    [discriminate|].
  destruct (field_validate validators v (KInt (Z.of_nat i)) ctx)
    as [v'|[e'| | |]]; try discriminate; [apply IH|].
  intros H. apply bind_raise in H. destruct H as [H|(errors' & _ & H)].
  - now apply py_update_raise in H.
  - now apply IH in H.
Qed.

Lemma many_loop_raise serializer ctx (items : list val) :
  forall collector errors e,
    many_loop serializer ctx items collector errors <>
    Raise (ValidationException e).
Proof.
  induction items as [|i rest IH]; intros collector errors e; simpl;
    [discriminate|].
  destruct (deserialize serializer i ctx) as [x|[e'| | |]];
    try discriminate; apply IH.
Qed.

Lemma pre_validate_raise target_field
    (validators : option (list (@validator context))) sub_source ctx e :
  pre_validate target_field validators sub_source ctx =
  Raise (ValidationException e) ->
  exists errors, e = VDict [(KStr target_field, VList errors)].
Proof.
  unfold pre_validate. destruct (list_or_empty validators) as [|f fs];
    [discriminate|].
  intros H. apply bind_raise in H.
  destruct H as [H|([final errors] & _ & H)].
  - now apply run_validators_loop_raise in H.
  - simpl in H. destruct errors; [discriminate|]. injection H as <-. eauto.
Qed.

Lemma assign_raise (target : dict) k (r : result val) x :
  snd (assign target k r) = Raise x -> r = Raise x.
Proof. destruct r; simpl; congruence. Qed.

(** Whatever its arguments and its source, a validation error raised by
    a translator that [field], [child] or [many] built carries a mapping
    with the single key [target_field]. *)
Lemma library_fields_raise_mappings
    (source_field : string) (target_field : option string)
    (validators : option (list validator)) (multiple : bool)
    (attr_getter : option getter) (formatters : option (list formatter))
    serializer (t : FieldTranslator) (source : val) (target : dict) ctx e :
  t = field source_field target_field validators multiple attr_getter formatters \/
  t = dict_field source_field target_field validators multiple attr_getter
        formatters \/
  t = child source_field target_field serializer validators attr_getter \/
  t = many source_field target_field serializer validators attr_getter ->
  snd (fdeserialize t source target ctx) = Raise (ValidationException e) ->
  exists payload,
    e = VDict [(KStr (name_or target_field source_field), payload)].
Proof.
  assert (Hfield : forall g,
    snd (fdeserialize
           (field source_field target_field validators multiple g formatters)
           source target ctx) = Raise (ValidationException e) ->
    exists payload,
      e = VDict [(KStr (name_or target_field source_field), payload)]).
  { intros g H. simpl in H. apply assign_raise in H.
    apply bind_raise in H. destruct H as [H|(value & _ & H)].
    - now apply py_get_raise in H.
    - destruct multiple.
      + apply bind_raise in H. destruct H as [H|(items & _ & H)].
        * apply py_iter_raise in H. discriminate.
        * apply bind_raise in H. destruct H as [H|([errors nv] & _ & H)].
          -- now apply field_multiple_loop_raise in H.
          -- simpl in H. destruct errors; [discriminate|].
             injection H as <-. eauto.
      + apply field_validate_raise in H. destruct H as [errors ->]. eauto. }
  intros [->|[->|[->| ->]]] H.
  - now apply Hfield in H.
  - now apply Hfield in H.
  - simpl in H. apply assign_raise in H.
    apply bind_raise in H. destruct H as [H|(raw & _ & H)].
    { now apply py_get_raise in H. }
    apply bind_raise in H. destruct H as [H|(sub & _ & H)].
    { apply pre_validate_raise in H. destruct H as [errors ->]. eauto. }
    destruct (deserialize serializer sub ctx) as [v|[e'| | |]];
      try discriminate.
    injection H as <-. eauto.
  - simpl in H. unfold many_deserialize in H.
    match type of H with context [match ?r with Ok _ => _ | Raise _ => _ end] =>
      destruct r as [[collector errors]|x] eqn:E end.
    + destruct errors; simpl in H; [discriminate|]. injection H as <-. eauto.
    + simpl in H. injection H as ->.
      apply bind_raise in E. destruct E as [E|(raw & _ & E)].
      { now apply py_get_raise in E. }
      apply bind_raise in E. destruct E as [E|(sub & _ & E)].
      { apply pre_validate_raise in E. destruct E as [errors ->]. eauto. }
      apply bind_raise in E. destruct E as [E|(items & _ & E)].
      { apply py_iter_raise in E. discriminate. }
      now apply many_loop_raise in E.
Qed.

End Payloads.

(** ** What becomes of a caught error *)

Section Reporting.

Context {context : Type}.
Implicit Types (ctx : context) (serializer : @Translator context)
  (validators : option (list (@validator context))).

Lemma merged_lookup (l1 l2 : dict) k v :
  ~ In k (dict_keys l2) ->
  dict_lookup k (dict_update [] (l1 ++ (k, v) :: l2)) = Some v.
Proof. apply dict_update_lookup_last. Qed.

Lemma rejected_in serializer ctx items i e :
  In i items ->
  deserialize serializer i ctx = Raise (ValidationException e) ->
  In e (rejected serializer ctx items).
Proof.
  induction items as [|j rest IH]; simpl; [tauto|].
  intros [->|Hin] He.
  - rewrite He. now left.
  - destruct (deserialize serializer j ctx) as [x|[x| | |]]; auto.
    right. auto.
Qed.

Lemma many_rejects_call source_field target_field serializer validators
    attr_getter d target ctx sub items :
  let tf := name_or target_field source_field in
  run_validators
    (match dict_lookup (KStr tf) d with Some x => x | None => VList [] end)
    (list_or_empty validators) ctx = Ok (sub, []) ->
  py_iter sub = Ok items ->
  Forall (fun i => validation_only (deserialize serializer i ctx)) items ->
  rejected serializer ctx items <> [] ->
  fdeserialize (many source_field target_field serializer validators attr_getter)
    (VDict d) target ctx =
  (dict_set (KStr source_field) (VList (accepted serializer ctx items)) target,
   Raise (ValidationException
            (VDict [(KStr tf, VList (rejected serializer ctx items))]))).
Proof.
  intros tf Hrun Hiter Hvalid Hne.
  rewrite (many_call _ _ _ _ _ _ _ _ _ _ Hrun).
  rewrite Hiter; simpl. rewrite (many_loop_split _ _ _ Hvalid); simpl.
  fold tf. destruct (rejected serializer ctx items); [congruence | reflexivity].
Qed.

(** C6, as the code has it: when the sub-translator rejects the middle
    element of a three-element list, [many.deserialize] raises a validation
    error mapping [target_field] to a list whose only entry is the payload
    of the rejected element, with no position attached.  In a record
    builder next to another field that raises a mapping without that key,
    in either order, the aggregate has both the list under [target_field]
    and every entry of the other field's mapping. *)
Theorem many_rejects_middle
    (source_field : string) (target_field : option string) serializer validators
    (attr_getter : option getter) (d : dict) ctx (sub x0 x1 x2 v0 v2 e : val) :
  let tf := name_or target_field source_field in
  let raw :=
    match dict_lookup (KStr tf) d with Some x => x | None => VList [] end in
  let m := many source_field target_field serializer validators attr_getter in
  run_validators raw (list_or_empty validators) ctx = Ok (sub, []) ->
  py_iter sub = Ok [x0; x1; x2] ->
  deserialize serializer x0 ctx = Ok v0 ->
  deserialize serializer x1 ctx = Raise (ValidationException e) ->
  deserialize serializer x2 ctx = Ok v2 ->
  (forall target,
      fdeserialize m (VDict d) target ctx =
      (dict_set (KStr source_field) (VList [v0; v2]) target,
       Raise (ValidationException (VDict [(KStr tf, VList [e])])))) /\
  (forall (other : FieldTranslator) (d' : dict),
      (forall target,
          snd (fdeserialize other (VDict d) target ctx) =
          Raise (ValidationException (VDict d'))) ->
      NoDup (dict_keys d') ->
      ~ In (KStr tf) (dict_keys d') ->
      forall fields,
        fields = [m; other] \/ fields = [other; m] ->
        exists agg,
          serializer_deserialize fields (VDict d) ctx =
          Raise (ValidationException (VDict agg)) /\
          dict_lookup (KStr tf) agg = Some (VList [e]) /\
          forall k v, dict_lookup k d' = Some v -> dict_lookup k agg = Some v).
Proof.
  intros tf raw m Hrun Hiter H0 H1 H2.
  assert (Hm : forall target,
             fdeserialize m (VDict d) target ctx =
             (dict_set (KStr source_field) (VList [v0; v2]) target,
              Raise (ValidationException (VDict [(KStr tf, VList [e])])))).
  { intros target. unfold m.
    rewrite (many_rejects_call _ _ _ _ _ _ _ _ _ _ Hrun Hiter).
    - simpl. now rewrite H0, H1, H2.
    - repeat constructor; intros x Hx; rewrite ?H0, ?H1, ?H2 in Hx;
        try discriminate. injection Hx as <-. now exists e.
    - simpl. rewrite H0, H1. discriminate. }
  split; [exact Hm|].
  intros other d' Hother Hnd Hfresh fields Hfields.
  assert (Hagg : forall entries,
             (dict_lookup (KStr tf) (dict_update [] entries) = Some (VList [e]) /\
              forall k v, dict_lookup k d' = Some v ->
                          dict_lookup k (dict_update [] entries) = Some v) ->
             entries <> [] ->
             exists agg,
               match dict_update [] entries with
               | [] => Ok (VDict (final_target fields (VDict d) ctx []))
               | agg' => Raise (ValidationException (VDict agg'))
               end = Raise (ValidationException (VDict agg)) /\
               dict_lookup (KStr tf) agg = Some (VList [e]) /\
               forall k v, dict_lookup k d' = Some v -> dict_lookup k agg = Some v).
  { intros entries Hl Hne. exists (dict_update [] entries). split; [|exact Hl].
    pose proof (dict_update_not_nil _ [] Hne).
    destruct (dict_update [] entries); [congruence | reflexivity]. }
  assert (Hkey : forall k v, dict_lookup k d' = Some v -> k <> KStr tf).
  { intros k v Hl ->. apply (proj2 (dict_lookup_none _ _)) in Hfresh.
    congruence. }
  destruct Hfields as [->| ->].
  - assert (Hcalls : attempts [m; other] (VDict d) ctx [] =
              [(dict_set (KStr source_field) (VList [v0; v2]) [],
                Raise (ValidationException (VDict [(KStr tf, VList [e])])));
               (fst (fdeserialize other (VDict d)
                       (dict_set (KStr source_field) (VList [v0; v2]) []) ctx),
                Raise (ValidationException (VDict d')))]).
    { cbn [attempts]. rewrite Hm. cbn [fst].
      match goal with |- context [fdeserialize other ?s ?t ?c] =>
        pose proof (Hother t) as Ho; destruct (fdeserialize other s t c) end.
      simpl in Ho. now subst. }
    rewrite serializer_deserialize_attempts.
    + rewrite Hcalls. cbn [raised_entries]. apply Hagg; [|discriminate]. split.
      * apply (merged_lookup []). unfold dict_keys. rewrite map_app. simpl.
        rewrite app_nil_r. exact Hfresh.
      * intros k v Hl.
        destruct (dict_lookup_split _ _ _ Hl Hnd) as (d1 & d2 & -> & Hd2).
        rewrite <- app_assoc. simpl.
        apply (merged_lookup ((KStr tf, VList [e]) :: d1)).
        now rewrite app_nil_r.
    + rewrite Hcalls.
      repeat (apply Forall_cons; [right; eexists; reflexivity|]).
      apply Forall_nil.
  - assert (Hcalls : attempts [other; m] (VDict d) ctx [] =
              [(fst (fdeserialize other (VDict d) [] ctx),
                Raise (ValidationException (VDict d')));
               (dict_set (KStr source_field) (VList [v0; v2])
                  (fst (fdeserialize other (VDict d) [] ctx)),
                Raise (ValidationException (VDict [(KStr tf, VList [e])])))]).
    { cbn [attempts]. rewrite Hm.
      pose proof (Hother []) as Ho.
      destruct (fdeserialize other (VDict d) [] ctx). simpl in Ho. now subst. }
    rewrite serializer_deserialize_attempts.
    + rewrite Hcalls. cbn [raised_entries]. apply Hagg.
      * split.
        -- rewrite app_nil_r. apply merged_lookup. simpl. tauto.
        -- intros k v Hl.
           destruct (dict_lookup_split _ _ _ Hl Hnd) as (d1 & d2 & E & Hd2).
           rewrite E, <- app_assoc. simpl.
           apply merged_lookup. unfold dict_keys. rewrite map_app. simpl.
           intros Hin. apply in_app_or in Hin.
           destruct Hin as [Hin|[Hin|[]]]; [tauto|].
           apply (Hkey k v Hl). congruence.
      * destruct d'; discriminate.
    + rewrite Hcalls.
      repeat (apply Forall_cons; [right; eexists; reflexivity|]).
      apply Forall_nil.
Qed.

Lemma run_validators_abort (value mid : val) (before after : list validator)
    (f : validator) (errors : list val) (x : exn) ctx :
  chain ctx value before mid errors ->
  f mid ctx = Raise x ->
  (forall e, x <> ValidationException e) ->
  run_validators value (before ++ f :: after) ctx = Raise x.
Proof.
  intros Hchain Hf Hx.
  induction Hchain as [v|v v' final g gs errors Hg _ IH|v final e g gs errors Hg _ IH];
    simpl.
  - now apply run_validators_other.
  - rewrite (run_validators_pass _ _ _ _ _ Hg). now apply IH.
  - rewrite (run_validators_record _ _ _ _ _ Hg). now rewrite IH.
Qed.

Lemma run_validators_caught (value mid final e : val)
    (before after : list validator) (f : validator)
    (caught errors : list val) ctx :
  chain ctx value before mid caught ->
  f mid ctx = Raise (ValidationException e) ->
  run_validators value (before ++ f :: after) ctx = Ok (final, errors) ->
  exists later, errors = caught ++ e :: later.
Proof.
  intros Hchain Hf. revert final errors.
  induction Hchain as [v|v v' fin g gs errs Hg _ IH|v fin e' g gs errs Hg _ IH];
    intros final errors H; simpl in H.
  - rewrite (run_validators_record _ _ _ _ _ Hf) in H.
    destruct (run_validators v after ctx) as [[fin later]|]; [|discriminate].
    injection H as _ <-. now exists later.
  - rewrite (run_validators_pass _ _ _ _ _ Hg) in H. now apply (IH Hf final).
  - rewrite (run_validators_record _ _ _ _ _ Hg) in H.
    destruct (run_validators v (gs ++ f :: after) ctx) as [[fin' errs']|] eqn:E;
      [|discriminate].
    injection H as _ <-.
    destruct (IH Hf fin' errs' eq_refl) as [later ->]. now exists later.
Qed.

Lemma deserialize_loop_app (before rest : list (@FieldTranslator context)) source ctx :
  forall target errors,
    Forall returned_or_mapping (attempts before source ctx target) ->
    deserialize_loop (before ++ rest) source ctx target errors =
    deserialize_loop rest source ctx (final_target before source ctx target)
      (dict_update errors (raised_entries (attempts before source ctx target))).
Proof.
  induction before as [|f before IH]; intros target errors H; simpl.
  - reflexivity.
  - simpl in H. inversion H as [|? ? Hf Hrest]; subst.
    destruct (fdeserialize f source target ctx) as [target' r] eqn:E.
    unfold returned_or_mapping in Hf. simpl in *.
    destruct Hf as [Hr|[d Hr]]; subst r.
    + now rewrite IH.
    + simpl. rewrite IH by assumption. now rewrite dict_update_app.
Qed.

Lemma deserialize_abort
    (before after : list (@FieldTranslator context)) (f : FieldTranslator)
    (source : val) ctx (x : exn) :
  Forall returned_or_mapping (attempts before source ctx []) ->
  snd (fdeserialize f source (final_target before source ctx []) ctx) = Raise x ->
  (forall e, x <> ValidationException e) ->
  serializer_deserialize (before ++ f :: after) source ctx = Raise x.
Proof.
  intros Hbefore Hf Hx. unfold serializer_deserialize.
  rewrite (deserialize_loop_app _ _ _ _ _ _ Hbefore). cbn [deserialize_loop].
  destruct (fdeserialize f source (final_target before source ctx []) ctx)
    as [target' r]. simpl in Hf. subst r.
  destruct x; try reflexivity. now destruct (Hx errors).
Qed.

Lemma py_get_dict (d : dict) (k : key) :
  py_get (VDict d) k VNone = Ok (dict_get d k).
Proof. unfold py_get, dict_get. now destruct (dict_lookup k d). Qed.

Lemma field_multiple_call_iter
    (source_field : string) (target_field : option string)
    validators (attr_getter : option getter)
    (formatters : option (list formatter))
    (d target : dict) ctx (items : list val) (outcomes : list (val * list val)) :
  py_iter (dict_get d (KStr (name_or target_field source_field))) = Ok items ->
  Forall2 (fun v o => run_validators v (list_or_empty validators) ctx = Ok o)
    items outcomes ->
  fdeserialize
    (field source_field target_field validators true attr_getter formatters)
    (VDict d) target ctx =
  assign target (KStr source_field)
    (match index_errors 0 outcomes with
     | [] => Ok (VList (map fst (filter clean outcomes)))
     | _ :: _ =>
         Raise (ValidationException
                  (VDict [(KStr (name_or target_field source_field),
                           VDict (index_errors 0 outcomes))]))
     end).
Proof.
  intros Hiter Hrun. cbn [fdeserialize field]. unfold field_deserialize.
  rewrite py_get_dict. cbn [bind]. rewrite Hiter. cbn [bind].
  rewrite (field_multiple_loop_outcomes _ _ _ _ Hrun); simpl; auto.
  intros k [].
Qed.


End Reporting.

(** The list [number 1; number 2; number 3]: only the middle record is
    rejected. *)
Lemma many_rejects_middle_witness :
  fdeserialize odd_records
    (VDict [(KStr "xs", VList [number 1; number 2; number 3])]) [] tt =
  ([(KStr "xs", VList [number 1; number 3])],
   Raise (ValidationException
            (VDict [(KStr "xs", VList [VDict [(KStr "n", VList [VStr "even"])]])]))).
Proof.
  apply (proj1 (many_rejects_middle "xs" None odd_record None None
                  [(KStr "xs", VList [number 1; number 2; number 3])] tt
                  (VList [number 1; number 2; number 3])
                  (number 1) (number 2) (number 3) (number 1) (number 3)
                  (VDict [(KStr "n", VList [VStr "even"])])
                  eq_refl eq_refl eq_refl eq_refl eq_refl)).
Defined.

(** C6 as stated fails.  Rejecting the element at position 1 and
    rejecting the element at position 0 raise the very same error, so
    nothing in the payload tells the position; and next to a field that
    raises under the same key, the record builder's aggregate has lost the
    list field's error. *)
Lemma many_error_position_lost :
  let reject_second :=
    snd (fdeserialize odd_records
           (VDict [(KStr "xs", VList [number 1; number 2; number 3])]) [] tt) in
  let reject_first :=
    snd (fdeserialize odd_records
           (VDict [(KStr "xs", VList [number 2; number 1; number 3])]) [] tt) in
  reject_second =
    Raise (ValidationException
             (VDict [(KStr "xs", VList [VDict [(KStr "n", VList [VStr "even"])]])])) /\
  reject_first = reject_second /\
  ~ (exists index_of : result unit -> nat,
        index_of reject_second = 1 /\ index_of reject_first = 0) /\
  serializer_deserialize
    [odd_records;
     field "count" (Some "xs") (Some [always_fail "bad"]) false None None]
    (VDict [(KStr "xs", VList [number 1; number 2; number 3])]) tt =
  Raise (ValidationException (VDict [(KStr "xs", VList [VStr "bad"])])).
Proof.
  cbv zeta. repeat split; try reflexivity.
  intros (index_of & H1 & H0).
  change (snd (fdeserialize odd_records
                 (VDict [(KStr "xs", VList [number 2; number 1; number 3])]) [] tt))
    with (snd (fdeserialize odd_records
                 (VDict [(KStr "xs", VList [number 1; number 2; number 3])]) [] tt))
    in H0.
  congruence.
Qed.



(** ** Equality of values *)

Lemma val_nested_ind (P : val -> Prop) :
  P VNone ->
  (forall z, P (VInt z)) ->
  (forall s, P (VStr s)) ->
  (forall l, Forall P l -> P (VList l)) ->
  (forall d, Forall (fun kv => P (snd kv)) d -> P (VDict d)) ->
  (forall attrs, Forall (fun kv => P (snd kv)) attrs -> P (VObj attrs)) ->
  forall v, P v.
Proof.
  intros HNone HInt HStr HList HDict HObj.
  fix IH 1. intros [| z | s | l | d | attrs].
  - exact HNone.
  - apply HInt.
  - apply HStr.
  - apply HList. induction l as [|x l IHl]; constructor; [apply IH | exact IHl].
  - apply HDict. induction d as [|[k x] d IHd]; constructor; [apply IH | exact IHd].
  - apply HObj.
    induction attrs as [|[n x] attrs IHa]; constructor; [apply IH | exact IHa].
Qed.

Lemma distinct_keys_NoDup (ks : list key) :
  distinct_keys ks = true -> NoDup ks.
Proof.
  induction ks as [|k ks IH]; simpl; intros H; constructor.
  - apply andb_true_iff in H. destruct H as [H _].
    apply negb_true_iff in H. intros Hin.
    assert (existsb (key_eqb k) ks = true); [|congruence].
    apply existsb_exists. exists k. split; auto. apply key_eqb_refl.
  - apply IH. apply andb_true_iff in H. tauto.
Qed.

Lemma dict_lookup_in (d : dict) k v :
  NoDup (dict_keys d) -> In (k, v) d -> dict_lookup k d = Some v.
Proof.
  induction d as [|[k' v'] d IH]; simpl; [tauto|].
  intros Hnd Hin. inversion Hnd as [|? ? Hnotin Hnd']; subst.
  destruct Hin as [[= -> ->]|Hin].
  - now rewrite key_eqb_refl.
  - destruct (key_eqb k k') eqn:E.
    + apply key_eqb_eq in E. subst. exfalso. apply Hnotin.
      change k' with (fst (k', v)). now apply in_map.
    + auto.
Qed.

Lemma dict_lookup_some_in (d : dict) k v :
  dict_lookup k d = Some v -> In (k, v) d.
Proof.
  induction d as [|[k' v'] d IH]; simpl; [discriminate|].
  destruct (key_eqb k k') eqn:E.
  - apply key_eqb_eq in E. intros [= ->]. subst. now left.
  - auto.
Qed.

Lemma well_formed_dict (d : dict) :
  well_formed (VDict d) = true ->
  NoDup (dict_keys d) /\ forall k v, In (k, v) d -> well_formed v = true.
Proof.
  simpl. intros H. apply andb_true_iff in H. destruct H as [Hk Hv]. split.
  - now apply distinct_keys_NoDup.
  - clear Hk. induction d as [|[k' v'] d IH]; simpl; [tauto|].
    apply andb_true_iff in Hv. destruct Hv as [Hv Hd].
    intros k v [[= -> ->]|Hin]; eauto.
Qed.

(** Two dictionaries with as many entries are equal as soon as every
    entry of the first is found, up to equality, in the second. *)
Lemma py_eq_dict (da db : dict) :
  List.length da = List.length db ->
  (forall k v, In (k, v) da ->
               exists v', dict_lookup k db = Some v' /\ py_eq v v' = true) ->
  py_eq (VDict da) (VDict db) = true.
Proof.
  intros Hlen Hent. simpl. rewrite Hlen, Nat.eqb_refl. simpl.
  induction da as [|[k v] da IH] in Hent |- *; [reflexivity|].
  destruct (Hent k v (or_introl eq_refl)) as (v' & -> & ->). simpl.
  apply IH. intros k0 v0 Hin. apply Hent. now right.
Qed.

Lemma py_eq_refl (v : val) : well_formed v = true -> py_eq v v = true.
Proof.
  induction v as [| z | s | l IH | d IH | attrs IH] using val_nested_ind;
    intros Hwf.
  - reflexivity.
  - apply Z.eqb_refl.
  - apply String.eqb_refl.
  - simpl in *. induction IH as [|x l Hx _ IHl]; [reflexivity|].
    apply andb_true_iff in Hwf. destruct Hwf as [Hwx Hwl].
    rewrite (Hx Hwx). simpl. now apply IHl.
  - destruct (well_formed_dict _ Hwf) as [Hnd Hvals].
    apply py_eq_dict; [reflexivity|].
    intros k v Hin. exists v. split; [now apply dict_lookup_in|].
    rewrite Forall_forall in IH. apply (IH (k, v) Hin). eauto.
  - simpl in *. induction IH as [|[n x] attrs Hx _ IHa]; [reflexivity|].
    apply andb_true_iff in Hwf. destruct Hwf as [Hwx Hwa].
    simpl in Hx. rewrite String.eqb_refl, (Hx Hwx). simpl. now apply IHa.
Qed.

(** ** Round trips through a record of dictionary fields *)

Section RoundTrip.

Context {context : Type}.
Implicit Types (ctx : context) (f : @field_desc context)
  (fields : list (@field_desc context)).

Lemma run_formatters_identity (formatters : list (@formatter context)) ctx v :
  Forall returns_argument formatters -> run_formatters formatters ctx v = Ok v.
Proof.
  induction 1 as [|g gs Hg _ IH]; simpl; [reflexivity|].
  now rewrite (Hg v ctx).
Qed.

Lemma run_validators_identity (validators : list (@validator context)) ctx v :
  Forall returns_argument validators ->
  run_validators v validators ctx = Ok (v, []).
Proof.
  induction 1 as [|g gs Hg _ IH]; [reflexivity|].
  now rewrite (run_validators_pass _ _ _ _ _ (Hg v ctx)).
Qed.

Lemma field_multiple_loop_identity (validators : list (@validator context))
    ctx (items : list val) :
  Forall returns_argument validators ->
  forall i new_value,
    field_multiple_loop validators ctx items i [] new_value =
    Ok ([], new_value ++ items).
Proof.
  intros Hid. induction items as [|x items IH]; intros i new_value; simpl.
  - now rewrite app_nil_r.
  - rewrite (field_validate_outcome _ _ _ _ _ _
               (run_validators_identity _ ctx x Hid)).
    rewrite IH. now rewrite <- app_assoc.
Qed.

Lemma dict_field_serialize f (x target : dict) ctx :
  identity_preserving f ->
  fserialize (dict_field_of f) (VDict x) target ctx =
  (dict_set (KStr (external_name f)) (dict_get x (KStr (source_name f))) target,
   Ok tt).
Proof.
  intros [_ Hfmt]. simpl. unfold field_serialize, dict_get; simpl.
  destruct (dict_lookup (KStr (source_name f)) x); simpl;
    now rewrite (run_formatters_identity _ _ _ Hfmt).
Qed.

Lemma dict_field_deserialize f (y target : dict) ctx :
  identity_preserving f ->
  (multiple_of f = true ->
   exists l, dict_lookup (KStr (external_name f)) y = Some (VList l)) ->
  fdeserialize (dict_field_of f) (VDict y) target ctx =
  (dict_set (KStr (source_name f)) (dict_get y (KStr (external_name f))) target,
   Ok tt).
Proof.
  intros [Hval _] Hlist. simpl. unfold field_deserialize, dict_get; simpl.
  fold (external_name f).
  destruct (multiple_of f).
  - destruct (Hlist eq_refl) as [l ->]. simpl.
    now rewrite (field_multiple_loop_identity _ _ _ Hval).
  - destruct (dict_lookup (KStr (external_name f)) y); simpl;
      now rewrite (field_validate_outcome _ _ _ _ _ _
                     (run_validators_identity _ ctx _ Hval)).
Qed.

(** Writing under names that are new and pairwise distinct appends one
    entry per field. *)
Lemma serialize_loop_pass fields (x : dict) ctx :
  Forall identity_preserving fields ->
  forall target,
    NoDup (map external_name fields) ->
    (forall f, In f fields -> ~ In (KStr (external_name f)) (dict_keys target)) ->
    serialize_loop (map dict_field_of fields) (VDict x) ctx target =
    Ok (target ++
        map (fun f => (KStr (external_name f), dict_get x (KStr (source_name f))))
          fields).
Proof.
  induction 1 as [|f fields Hf _ IH]; intros target Hnd Hfresh.
  - simpl. now rewrite app_nil_r.
  - cbn [map serialize_loop]. rewrite (dict_field_serialize _ _ _ _ Hf).
    inversion Hnd as [|? ? Hnotin Hnd']; subst.
    rewrite dict_set_fresh by (apply Hfresh; now left).
    rewrite IH; auto.
    + now rewrite <- app_assoc.
    + intros g Hg Hin. unfold dict_keys in Hin. rewrite map_app in Hin.
      apply in_app_or in Hin. destruct Hin as [Hin|[Hin|[]]].
      * apply (Hfresh g); [now right | exact Hin].
      * injection Hin as Hin. apply Hnotin. rewrite Hin. now apply in_map.
Qed.

Lemma deserialize_loop_pass fields (y : dict) ctx :
  Forall identity_preserving fields ->
  (forall f, In f fields -> multiple_of f = true ->
             exists l, dict_lookup (KStr (external_name f)) y = Some (VList l)) ->
  forall target,
    NoDup (map source_name fields) ->
    (forall f, In f fields -> ~ In (KStr (source_name f)) (dict_keys target)) ->
    deserialize_loop (map dict_field_of fields) (VDict y) ctx target [] =
    Ok (target ++
        map (fun f => (KStr (source_name f), dict_get y (KStr (external_name f))))
          fields,
        []).
Proof.
  induction 1 as [|f fields Hf _ IH]; intros Hlist target Hnd Hfresh.
  - simpl. now rewrite app_nil_r.
  - cbn [map deserialize_loop].
    rewrite (dict_field_deserialize _ _ _ _ Hf) by (apply Hlist; now left).
    inversion Hnd as [|? ? Hnotin Hnd']; subst.
    rewrite dict_set_fresh by (apply Hfresh; now left).
    rewrite IH; auto.
    + now rewrite <- app_assoc.
    + intros g Hg. apply Hlist. now right.
    + intros g Hg Hin. unfold dict_keys in Hin. rewrite map_app in Hin.
      apply in_app_or in Hin. destruct Hin as [Hin|[Hin|[]]].
      * apply (Hfresh g); [now right | exact Hin].
      * injection Hin as Hin. apply Hnotin. rewrite Hin. now apply in_map.
Qed.

(** Looking up, in a list of entries built one per field under distinct
    names, the name of one of the fields. *)
Lemma lookup_renamed (name : field_desc -> string) (value_of : field_desc -> val)
    fields f :
  NoDup (map name fields) ->
  In f fields ->
  dict_lookup (KStr (name f)) (map (fun g => (KStr (name g), value_of g)) fields) =
  Some (value_of f).
Proof.
  induction fields as [|g fields IH]; simpl; [tauto|].
  intros Hnd Hin. inversion Hnd as [|? ? Hnotin Hnd']; subst.
  destruct Hin as [->|Hin].
  - now rewrite String.eqb_refl.
  - destruct (String.eqb_spec (name f) (name g)) as [E|E].
    + exfalso. apply Hnotin. rewrite <- E. now apply in_map.
    + auto.
Qed.

(** The entries read back under the names of a mapping that fits make a
    dictionary equal to it. *)
Lemma read_back_equal (name : field_desc -> string) fields (d : dict) :
  fits name fields d ->
  py_eq (VDict (map (fun f => (KStr (name f), dict_get d (KStr (name f)))) fields))
    (VDict d) = true.
Proof.
  intros (Hwf & Hperm & _).
  destruct (well_formed_dict _ Hwf) as [Hnd Hvals].
  apply py_eq_dict.
  - rewrite length_map.
    apply Permutation_length in Hperm. unfold dict_keys in Hperm.
    now rewrite !length_map in Hperm.
  - intros k v Hin. apply in_map_iff in Hin. destruct Hin as (f & [= <- <-] & Hf).
    assert (Hk : In (KStr (name f)) (dict_keys d)).
    { eapply Permutation_in; [apply Permutation_sym, Hperm|].
      apply in_map_iff. now exists f. }
    unfold dict_get.
    destruct (dict_lookup (KStr (name f)) d) as [v|] eqn:E.
    + exists v. split; [reflexivity|]. apply py_eq_refl.
      eapply Hvals. apply dict_lookup_some_in. exact E.
    + apply dict_lookup_none in E. tauto.
Qed.

(** C9, as the code has it: for a record of [dict_field] fields whose
    validators and formatters return their argument, with pairwise distinct
    source names and pairwise distinct external names, serializing an
    internal mapping that fits the source names and deserializing the
    result gives a mapping equal to it, and deserializing an external
    mapping that fits the external names and serializing the result gives
    a mapping equal to it. *)
Theorem dict_record_round_trip fields ctx :
  let record := serializer (map dict_field_of fields) in
  Forall identity_preserving fields ->
  NoDup (map source_name fields) ->
  NoDup (map external_name fields) ->
  (forall x, fits source_name fields x ->
             exists y r,
               serialize record (VDict x) ctx = Ok y /\
               deserialize record y ctx = Ok r /\
               py_eq r (VDict x) = true) /\
  (forall y, fits external_name fields y ->
             exists x r,
               deserialize record (VDict y) ctx = Ok x /\
               serialize record x ctx = Ok r /\
               py_eq r (VDict y) = true).
Proof.
  intros record Hid Hsrc Htgt. split.
  - intros x Hx.
    set (y := map (fun f => (KStr (external_name f),
                             dict_get x (KStr (source_name f)))) fields).
    assert (Hy : forall f, In f fields ->
                 dict_get y (KStr (external_name f)) =
                 dict_get x (KStr (source_name f))).
    { intros f Hf. unfold dict_get at 1, y.
      now rewrite (lookup_renamed external_name _ fields f Htgt Hf). }
    exists (VDict y),
      (VDict (map (fun f => (KStr (source_name f),
                             dict_get x (KStr (source_name f)))) fields)).
    split; [|split].
    + simpl. unfold serializer_serialize.
      rewrite (serialize_loop_pass _ _ _ Hid); auto.
    + simpl. unfold serializer_deserialize.
      rewrite (deserialize_loop_pass _ _ _ Hid); auto.
      * simpl. do 2 f_equal. apply map_ext_in. intros f Hf. now rewrite Hy.
      * intros f Hf Hm. destruct Hx as (_ & _ & Hlist).
        destruct (Hlist f Hf Hm) as [l Hl]. exists l.
        unfold y. rewrite (lookup_renamed external_name _ fields f Htgt Hf).
        unfold dict_get. now rewrite Hl.
    + now apply read_back_equal.
  - intros y Hy.
    set (x := map (fun f => (KStr (source_name f),
                             dict_get y (KStr (external_name f)))) fields).
    assert (Hx : forall f, In f fields ->
                 dict_get x (KStr (source_name f)) =
                 dict_get y (KStr (external_name f))).
    { intros f Hf. unfold dict_get at 1, x.
      now rewrite (lookup_renamed source_name _ fields f Hsrc Hf). }
    exists (VDict x),
      (VDict (map (fun f => (KStr (external_name f),
                             dict_get y (KStr (external_name f)))) fields)).
    split; [|split].
    + simpl. unfold serializer_deserialize.
      rewrite (deserialize_loop_pass _ _ _ Hid); auto.
      destruct Hy as (_ & _ & Hlist). exact Hlist.
    + simpl. unfold serializer_serialize.
      rewrite (serialize_loop_pass _ _ _ Hid); auto.
      simpl. do 2 f_equal. apply map_ext_in. intros f Hf. now rewrite Hx.
    + now apply read_back_equal.
Qed.

End RoundTrip.

(** ** Concrete runs *)

(** The nested record [{"n": 2}] under ["home"] is rejected by the
    sub-translator. *)
Lemma child_deserialize_delegation_witness :
  fdeserialize home (VDict [(KStr "home", number 2)]) [] tt =
  ([], Raise (ValidationException
                (VDict [(KStr "home", VDict [(KStr "n", VList [VStr "even"])])]))).
Proof.
  exact (proj1 (proj2 (child_deserialize_delegation "home" None None None
                         [(KStr "home", number 2)] [] tt)
                  (number 2) eq_refl odd_record)
           (VDict [(KStr "n", VList [VStr "even"])]) eq_refl).
Defined.

Lemma child_deserialize_error_keeps_target_witness :
  fst (fdeserialize home (VDict [(KStr "home", number 2)])
         [(KStr "kept", VInt 0)] tt) = [(KStr "kept", VInt 0)].
Proof.
  apply (child_deserialize_error_keeps_target "home" None odd_record None None
           (VDict [(KStr "home", number 2)]) [(KStr "kept", VInt 0)] tt
           (ValidationException
              (VDict [(KStr "home", VDict [(KStr "n", VList [VStr "even"])])]))).
  reflexivity.
Defined.

(** Of three records the middle one is rejected: the two others are in
    the accumulator when the error is raised. *)
Lemma many_deserialize_partial_witness :
  fdeserialize odd_records
    (VDict [(KStr "xs", VList [number 1; number 2; number 3])]) [] tt =
  ([(KStr "xs", VList [number 1; number 3])],
   Raise (ValidationException
            (VDict [(KStr "xs", VList [VDict [(KStr "n", VList [VStr "even"])]])]))).
Proof.
  refine (proj1 (many_deserialize_partial "xs" None odd_record None None
                   [(KStr "xs", VList [number 1; number 2; number 3])] [] tt
                   (VList [number 1; number 2; number 3])
                   [number 1; number 2; number 3] eq_refl eq_refl _ _)).
  - repeat (apply Forall_cons;
            [intros x Hx; first [discriminate | injection Hx as <-; eexists; reflexivity]|]).
    apply Forall_nil.
  - apply Exists_cons_tl, Exists_cons_hd. eexists. reflexivity.
Defined.

(** An internal mapping given in another order than the fields. *)
Lemma dict_record_round_trip_witness :
  exists y r,
    serialize (serializer (map dict_field_of renamed_and_tags))
      (VDict [(KStr "tags", VList [VInt 1]); (KStr "a", VInt 2)]) tt = Ok y /\
    deserialize (serializer (map dict_field_of renamed_and_tags)) y tt = Ok r /\
    py_eq r (VDict [(KStr "tags", VList [VInt 1]); (KStr "a", VInt 2)]) = true.
Proof.
  refine (proj1 (dict_record_round_trip renamed_and_tags tt _ _ _)
            [(KStr "tags", VList [VInt 1]); (KStr "a", VInt 2)] _).
  - repeat (apply Forall_cons; [split; apply Forall_nil|]). apply Forall_nil.
  - repeat constructor; simpl; intuition discriminate.
  - repeat constructor; simpl; intuition discriminate.
  - split; [reflexivity|]. split; [apply perm_swap|].
    intros f [<-|[<-|[]]] Hm; [discriminate|].
    exists [VInt 1]. reflexivity.
Defined.

(** C9 as stated fails for a record of attribute fields: what
    [deserialize] returns is a mapping, which is not equal to the object
    that was serialized, and which [serialize] cannot read. *)
Lemma field_record_round_trip_fails :
  serialize attribute_record (VObj [("a", VInt 1)]) tt =
    Ok (VDict [(KStr "a", VInt 1)]) /\
  deserialize attribute_record (VDict [(KStr "a", VInt 1)]) tt =
    Ok (VDict [(KStr "a", VInt 1)]) /\
  py_eq (VDict [(KStr "a", VInt 1)]) (VObj [("a", VInt 1)]) = false /\
  serialize attribute_record (VDict [(KStr "a", VInt 1)]) tt =
    Raise AttributeError.
Proof. repeat split. Qed.

(** ** Scalar fields: formatting, renaming, reading *)

Section ScalarFieldMore.

Context {context : Type}.
Implicit Types (ctx : context).

Lemma run_formatters_fold (formatters : list (@formatter context))
    (gs : list (val -> val)) ctx :
  Forall2 (fun f h => forall v, f v ctx = Ok (h v)) formatters gs ->
  forall v, run_formatters formatters ctx v = Ok (fold_left (fun x h => h x) gs v).
Proof.
  induction 1 as [|f h fs hs Hf _ IH]; intros v; simpl; [reflexivity|].
  rewrite Hf. simpl. apply IH.
Qed.

(** [field.serialize] pipes what the getter reads through the formatters
    from the first to the last, and writes the outcome under
    [target_field]. *)
Theorem field_serialize_formats
    (source_field : string) (target_field : option string)
    (validators : option (list validator)) (multiple : bool)
    (attr_getter : getter) (formatters : list formatter)
    (gs : list (val -> val)) (source raw : val) (target : dict) ctx :
  attr_getter source = Ok raw ->
  Forall2 (fun f h => forall v, f v ctx = Ok (h v)) formatters gs ->
  fserialize
    (field source_field target_field validators multiple (Some attr_getter)
       (Some formatters))
    source target ctx =
  (dict_set (KStr (name_or target_field source_field))
     (fold_left (fun x h => h x) gs raw) target,
   Ok tt).
Proof.
  intros Hget Hfmt. simpl. unfold field_serialize. rewrite Hget. simpl.
  now rewrite (run_formatters_fold _ _ _ Hfmt).
Qed.

(** In single-value mode, when every validator returns, [deserialize]
    reads the key [target_field] ([None] when it is missing) and writes
    what the chain made of it under [source_field]. *)
Theorem field_single_deserialize_pass
    (source_field : string) (target_field : option string)
    (validators : option (list validator)) (attr_getter : option getter)
    (formatters : option (list formatter)) (d target : dict) ctx (final : val) :
  all_pass ctx (dict_get d (KStr (name_or target_field source_field)))
    (list_or_empty validators) final ->
  fdeserialize
    (field source_field target_field validators false attr_getter formatters)
    (VDict d) target ctx =
  (dict_set (KStr source_field) final target, Ok tt).
Proof.
  intros H. apply all_pass_chain, chain_sound in H.
  apply (field_single_call source_field target_field validators attr_getter
           formatters d target ctx final [] H).
Qed.

Lemma field_multiple_loop_plain ctx (items : list val) : forall i new_value,
  field_multiple_loop (@nil (@validator context)) ctx items i [] new_value =
  Ok ([], new_value ++ items).
Proof.
  induction items as [|x items IH]; intros i new_value; simpl.
  - now rewrite app_nil_r.
  - rewrite IH. now rewrite <- app_assoc.
Qed.

(** List mode without validators takes anything that can be iterated: a
    list as it is, a string as its characters, a mapping as its keys; a
    value that cannot be iterated raises [TypeError] and nothing is
    written. *)
Theorem field_multiple_iterates
    (source_field : string) (target_field : option string)
    (attr_getter : option getter) (formatters : option (list formatter))
    (d target : dict) ctx :
  fdeserialize
    (field source_field target_field None true attr_getter formatters)
    (VDict d) target ctx =
  match dict_get d (KStr (name_or target_field source_field)) with
  | VList l => (dict_set (KStr source_field) (VList l) target, Ok tt)
  | VStr s => (dict_set (KStr source_field) (VList (chars s)) target, Ok tt)
  | VDict m =>
      (dict_set (KStr source_field)
         (VList (map key_to_value (dict_keys m))) target, Ok tt)
  | VNone | VInt _ | VObj _ => (target, Raise TypeError)
  end.
Proof.
  simpl. unfold field_deserialize, dict_get. simpl.
  destruct (dict_lookup (KStr (name_or target_field source_field)) d)
    as [[| z | s | l | m | attrs]|]; simpl;
    rewrite ?field_multiple_loop_plain; reflexivity.
Qed.

Lemma split_dots_plain (s : string) : forall cur,
  dotted s = false -> split_dots s cur = [(cur ++ s)%string].
Proof.
  induction s as [|c s IH]; intros cur H; simpl in *.
  - f_equal. induction cur as [|c' cur IHc]; simpl; congruence.
  - apply orb_false_iff in H. destruct H as [Hc Hs]. rewrite Hc.
    rewrite (IH _ Hs). f_equal.
    induction cur as [|c' cur IHc]; simpl; congruence.
Qed.

(** The default getter of [field] reads the attribute [source_field] of
    an object, for a name without dots that does not start with an
    underscore: with no formatters the attribute's value is written under
    [target_field], and an object without the attribute raises
    [AttributeError], leaving the accumulator as it was. *)
Theorem field_serialize_attribute
    (source_field : string) (target_field : option string)
    (validators : option (list validator)) (multiple : bool)
    (attrs : list (string * val)) (target : dict) ctx :
  plain_name source_field = true ->
  fserialize (field source_field target_field validators multiple None None)
    (VObj attrs) target ctx =
  match attr_lookup source_field attrs with
  | Some v => (dict_set (KStr (name_or target_field source_field)) v target, Ok tt)
  | None => (target, Raise AttributeError)
  end.
Proof.
  intros Hplain. apply andb_true_iff in Hplain. destruct Hplain as [Hdot _].
  apply negb_true_iff in Hdot.
  simpl. unfold field_serialize, attrgetter.
  rewrite (split_dots_plain _ EmptyString Hdot). simpl.
  now destruct (attr_lookup source_field attrs).
Qed.

Lemma split_dots_app (a b : string) : forall cur,
  split_dots (a ++ String "."%char b) cur =
  split_dots a cur ++ split_dots b EmptyString.
Proof.
  induction a as [|c a IH]; intros cur; simpl.
  - reflexivity.
  - destruct (Ascii.eqb c "."%char); simpl; now rewrite IH.
Qed.

Lemma getattr_fold_raise (names : list string) (e : exn) :
  fold_left (fun r n => do x <- r; getattr x n) names (Raise e) = Raise e.
Proof. induction names as [|n names IH]; simpl; auto. Qed.

Lemma attrgetter_app (a b : string) (v : val) :
  attrgetter (a ++ String "."%char b) v =
  do x <- attrgetter a v; attrgetter b x.
Proof.
  unfold attrgetter. rewrite split_dots_app, fold_left_app.
  destruct (fold_left _ (split_dots a EmptyString) (Ok v)) as [x|e]; simpl.
  - reflexivity.
  - apply getattr_fold_raise.
Qed.

(** A dotted [source_field] is followed one attribute at a time by the
    default getter: a field named ["a.b"] serializes what reading ["b"]
    off the result of reading ["a"] gives, under [target_field] (the
    whole dotted name when none is given). *)
Theorem field_serialize_dotted_path
    (a b : string) (target_field : option string)
    (validators : option (list validator)) (multiple : bool)
    (source : val) (target : dict) ctx :
  let source_field := (a ++ String "."%char b)%string in
  fserialize (field source_field target_field validators multiple None None)
    source target ctx =
  assign target (KStr (name_or target_field source_field))
    (do x <- attrgetter a source; attrgetter b x).
Proof.
  intros source_field. simpl. unfold field_serialize, source_field.
  rewrite attrgetter_app. f_equal.
  destruct (attrgetter a source) as [x|e]; simpl; [|reflexivity].
  now destruct (attrgetter b x).
Qed.

End ScalarFieldMore.

Lemma field_serialize_formats_witness :
  fserialize
    (field "n" (Some "m") None false (Some (key_getter "n"))
       (Some [plus_one; double]))
    (VDict [(KStr "n", VInt 3)]) [] tt =
  ([(KStr "m", VInt 8)], Ok tt).
Proof.
  apply (field_serialize_formats "n" (Some "m") None false (key_getter "n")
           [plus_one; double]
           [fun v => match v with VInt z => VInt (z + 1) | _ => v end;
            fun v => match v with VInt z => VInt (2 * z) | _ => v end]
           (VDict [(KStr "n", VInt 3)]) (VInt 3) [] tt).
  - reflexivity.
  - repeat (apply Forall2_cons; [intros [| z | s | l | d | attrs]; reflexivity|]).
    apply Forall2_nil.
Defined.

(** A missing key in single-value mode: the validator sees [None]. *)
Lemma field_single_deserialize_pass_witness :
  fdeserialize (field "a" (Some "b") (Some [reject_even]) false None None)
    (VDict [(KStr "a", VInt 2)]) [] tt =
  ([(KStr "a", VNone)], Ok tt).
Proof.
  apply (field_single_deserialize_pass "a" (Some "b") (Some [reject_even])
           None None [(KStr "a", VInt 2)] [] tt VNone).
  eapply all_pass_step; [reflexivity | apply all_pass_done].
Defined.

Lemma field_serialize_attribute_witness :
  fserialize (field "a" None None false None None)
    (VObj [("b", VInt 1)]) [(KStr "kept", VInt 0)] tt =
  ([(KStr "kept", VInt 0)], Raise AttributeError).
Proof.
  apply (field_serialize_attribute "a" None None false [("b", VInt 1)]
           [(KStr "kept", VInt 0)] tt).
  reflexivity.
Defined.

(** ** The validator chain: what else it does *)

Section ValidatorChainMore.

Context {context : Type}.
Implicit Types (ctx : context) (validators : list (@validator context)).

(** An exception that is not a validation error stops the chain at the
    validator that raises it: it comes out of [run_validators], and the
    errors recorded before it are lost with the value. *)
Theorem run_validators_propagates (value mid : val) (before after : list validator)
    (f : validator) (errors : list val) (x : exn) ctx :
  chain ctx value before mid errors ->
  f mid ctx = Raise x ->
  (forall e, x <> ValidationException e) ->
  run_validators value (before ++ f :: after) ctx = Raise x.
Proof. apply run_validators_abort. Qed.

(** When every validator raises a validation error, the value comes back
    untouched and the errors are those of the validators, one each, in
    their order. *)
Theorem run_validators_all_fail (value : val) validators (es : list val) ctx :
  Forall2 (fun f e => forall v, f v ctx = Raise (ValidationException e))
    validators es ->
  run_validators value validators ctx = Ok (value, es).
Proof.
  induction 1 as [|f e fs es Hf _ IH]; [reflexivity|].
  now rewrite (run_validators_record _ _ _ _ _ (Hf value)), IH.
Qed.

(** The chain records at most one error per validator. *)
Theorem run_validators_errors_bounded (value final : val) validators
    (errors : list val) ctx :
  run_validators value validators ctx = Ok (final, errors) ->
  List.length errors <= List.length validators.
Proof.
  intros H. apply chain_complete in H.
  induction H; simpl; lia.
Qed.

End ValidatorChainMore.

Lemma run_validators_propagates_witness :
  run_validators VNone [always_fail "no"; broken; always_fail "never"] tt =
  Raise TypeError.
Proof.
  apply (run_validators_propagates VNone VNone [always_fail "no"]
           [always_fail "never"] broken [VStr "no"] TypeError tt).
  - eapply chain_record; [reflexivity | apply chain_done].
  - reflexivity.
  - discriminate.
Defined.

Lemma run_validators_all_fail_witness :
  run_validators (VInt 7) [always_fail "one"; always_fail "two"] tt =
  Ok (VInt 7, [VStr "one"; VStr "two"]).
Proof.
  apply (run_validators_all_fail (VInt 7) [always_fail "one"; always_fail "two"]
           [VStr "one"; VStr "two"] tt).
  repeat (apply Forall2_cons; [reflexivity|]). apply Forall2_nil.
Defined.

Lemma run_validators_errors_bounded_witness :
  List.length [VStr "even"] <= List.length [reject_even; increment].
Proof.
  apply (run_validators_errors_bounded (VInt 2) (VInt 3) [reject_even; increment]
           [VStr "even"] tt).
  reflexivity.
Defined.

(** ** Nested translators: what else they do *)

Section NestedMore.

Context {context : Type}.
Implicit Types (ctx : context) (serializer : @Translator context)
  (validators : option (list (@validator context))).

(** A [many] field whose key is missing from the source, with no
    pre-validators, stores the empty list and raises nothing, whatever the
    sub-translator. *)
Theorem many_missing_key_empty
    (source_field : string) (target_field : option string) serializer validators
    (attr_getter : option getter) (d target : dict) ctx :
  dict_lookup (KStr (name_or target_field source_field)) d = None ->
  list_or_empty validators = [] ->
  fdeserialize (many source_field target_field serializer validators attr_getter)
    (VDict d) target ctx =
  (dict_set (KStr source_field) (VList []) target, Ok tt).
Proof.
  intros Hmiss Hnone.
  rewrite (many_call source_field target_field serializer validators attr_getter
             d target ctx (VList []) []).
  - reflexivity.
  - rewrite Hmiss, Hnone. reflexivity.
Qed.

Lemma many_loop_all serializer ctx (items results : list val) :
  Forall2 (fun i r => deserialize serializer i ctx = Ok r) items results ->
  forall collector errors,
    many_loop serializer ctx items collector errors =
    Ok (collector ++ results, errors).
Proof.
  induction 1 as [|i r items results Hi _ IH]; intros collector errors; simpl.
  - now rewrite app_nil_r.
  - rewrite Hi, IH. now rewrite <- app_assoc.
Qed.

Lemma many_deserialize_accepts
    (source_field : string) (target_field : option string) serializer validators
    (attr_getter : option getter) (d target : dict) ctx (sub : val)
    (items results : list val) :
  run_validators
    (match dict_lookup (KStr (name_or target_field source_field)) d with
     | Some x => x
     | None => VList []
     end)
    (list_or_empty validators) ctx = Ok (sub, []) ->
  py_iter sub = Ok items ->
  Forall2 (fun i r => deserialize serializer i ctx = Ok r) items results ->
  fdeserialize (many source_field target_field serializer validators attr_getter)
    (VDict d) target ctx =
  (dict_set (KStr source_field) (VList results) target, Ok tt).
Proof.
  intros Hrun Hiter Hall.
  rewrite (many_call _ _ _ _ _ _ _ _ _ _ Hrun), Hiter. simpl.
  now rewrite (many_loop_all _ _ _ _ Hall).
Qed.

(** When the sub-translator accepts every element, [many.deserialize]
    stores their results, in the order of the elements, under
    [source_field] and returns. *)
Theorem many_deserialize_all_accepted
    (source_field : string) (target_field : option string) serializer validators
    (attr_getter : option getter) (d target : dict) ctx (sub : val)
    (items results : list val) :
  run_validators
    (match dict_lookup (KStr (name_or target_field source_field)) d with
     | Some x => x
     | None => VList []
     end)
    (list_or_empty validators) ctx = Ok (sub, []) ->
  py_iter sub = Ok items ->
  Forall2 (fun i r => deserialize serializer i ctx = Ok r) items results ->
  fdeserialize (many source_field target_field serializer validators attr_getter)
    (VDict d) target ctx =
  (dict_set (KStr source_field) (VList results) target, Ok tt).
Proof. apply many_deserialize_accepts. Qed.

Lemma many_serialize_items_all serializer ctx (items results : list val) :
  Forall2 (fun i r => serialize serializer i ctx = Ok r) items results ->
  many_serialize_items serializer ctx items = Ok results.
Proof.
  induction 1 as [|i r items results Hi _ IH]; simpl; [reflexivity|].
  now rewrite Hi, IH.
Qed.

Lemma many_serialize_items_raise serializer ctx (items : list val) :
  Exists (fun i => exists x, serialize serializer i ctx = Raise x) items ->
  exists x, many_serialize_items serializer ctx items = Raise x.
Proof.
  induction 1 as [i rest [x Hx]|i rest _ [x IH]]; simpl.
  - rewrite Hx. now exists x.
  - destruct (serialize serializer i ctx) as [r|y]; simpl.
    + rewrite IH. now exists x.
    + now exists y.
Qed.

Lemma many_serialize_call
    (source_field : string) (target_field : option string) serializer validators
    (attr_getter : getter) (source sub : val) (target : dict) ctx
    (items results : list val) :
  attr_getter source = Ok sub ->
  py_iter sub = Ok items ->
  Forall2 (fun i r => serialize serializer i ctx = Ok r) items results ->
  fserialize
    (many source_field target_field serializer validators (Some attr_getter))
    source target ctx =
  (dict_set (KStr (name_or target_field source_field)) (VList results) target,
   Ok tt).
Proof.
  intros Hget Hiter Hall. simpl. unfold many_serialize.
  rewrite Hget. simpl. rewrite Hiter. simpl.
  now rewrite (many_serialize_items_all _ _ _ _ Hall).
Qed.

(** [many.serialize] maps the sub-translator's [serialize] over the
    elements, keeping their order, and writes the list under
    [target_field]; if an element cannot be serialized the exception
    comes out and nothing is written. *)
Theorem many_serialize_maps
    (source_field : string) (target_field : option string) serializer validators
    (attr_getter : getter) (source sub : val) (target : dict) ctx
    (items : list val) :
  attr_getter source = Ok sub ->
  py_iter sub = Ok items ->
  let call :=
    fserialize
      (many source_field target_field serializer validators (Some attr_getter))
      source target ctx in
  (forall results,
      Forall2 (fun i r => serialize serializer i ctx = Ok r) items results ->
      call = (dict_set (KStr (name_or target_field source_field)) (VList results)
                target, Ok tt)) /\
  (Exists (fun i => exists x, serialize serializer i ctx = Raise x) items ->
   exists x, call = (target, Raise x)).
Proof.
  intros Hget Hiter call. unfold call. simpl. unfold many_serialize.
  rewrite Hget. simpl. rewrite Hiter. simpl. split.
  - intros results Hall. now rewrite (many_serialize_items_all _ _ _ _ Hall).
  - intros Hbad. destruct (many_serialize_items_raise _ _ _ Hbad) as [x ->].
    now exists x.
Qed.

(** Round trips go through nesting.  With key lookup as the getter, if
    the sub-translator's [deserialize] undoes its [serialize] on a
    sub-object, so does [child]'s on a mapping holding that sub-object;
    and if it does on every element of a list, so does [many]'s on a
    mapping holding that list. *)
Theorem nested_round_trip
    (source_field : string) (target_field : option string) serializer
    (x : dict) ctx :
  let tf := name_or target_field source_field in
  let c := child source_field target_field serializer None
             (Some (key_getter source_field)) in
  let m := many source_field target_field serializer None
             (Some (key_getter source_field)) in
  (forall sub encoded,
      dict_lookup (KStr source_field) x = Some sub ->
      serialize serializer sub ctx = Ok encoded ->
      deserialize serializer encoded ctx = Ok sub ->
      fserialize c (VDict x) [] ctx = ([(KStr tf, encoded)], Ok tt) /\
      fdeserialize c (VDict [(KStr tf, encoded)]) [] ctx =
      ([(KStr source_field, sub)], Ok tt)) /\
  (forall items encoded,
      dict_lookup (KStr source_field) x = Some (VList items) ->
      Forall2 (fun i e => serialize serializer i ctx = Ok e /\
                          deserialize serializer e ctx = Ok i) items encoded ->
      fserialize m (VDict x) [] ctx = ([(KStr tf, VList encoded)], Ok tt) /\
      fdeserialize m (VDict [(KStr tf, VList encoded)]) [] ctx =
      ([(KStr source_field, VList items)], Ok tt)).
Proof.
  intros tf c m. split.
  - intros sub encoded Hsub Hser Hde. split.
    + unfold c. simpl. unfold child_serialize, key_getter. simpl.
      rewrite Hsub. simpl. now rewrite Hser.
    + unfold c.
      rewrite (child_call source_field target_field serializer None
                 (Some (key_getter source_field)) [(KStr tf, encoded)] [] ctx
                 encoded []).
      * now rewrite Hde.
      * simpl. fold tf. now rewrite String.eqb_refl.
  - intros items encoded Hsub Hall. split.
    + unfold m.
      apply (many_serialize_call source_field target_field serializer None
               (key_getter source_field) (VDict x) (VList items) [] ctx items
               encoded).
      * unfold key_getter. simpl. now rewrite Hsub.
      * reflexivity.
      * eapply Forall2_impl; [|exact Hall]. simpl. tauto.
    + unfold m.
      apply (many_deserialize_accepts source_field target_field serializer
               None (Some (key_getter source_field)) [(KStr tf, VList encoded)]
               [] ctx (VList encoded) encoded items).
      * simpl. fold tf. now rewrite String.eqb_refl.
      * reflexivity.
      * clear Hsub. induction Hall as [|i e items encoded [_ He] _ IH];
          constructor; auto.
Qed.

End NestedMore.

Lemma many_missing_key_empty_witness :
  fdeserialize odd_records (VDict [(KStr "other", VInt 1)]) [] tt =
  ([(KStr "xs", VList [])], Ok tt).
Proof.
  apply (many_missing_key_empty "xs" None odd_record None None
           [(KStr "other", VInt 1)] [] tt); reflexivity.
Defined.

Lemma many_deserialize_all_accepted_witness :
  fdeserialize odd_records (VDict [(KStr "xs", VList [number 1; number 3])]) [] tt =
  ([(KStr "xs", VList [number 1; number 3])], Ok tt).
Proof.
  apply (many_deserialize_all_accepted "xs" None odd_record None None
           [(KStr "xs", VList [number 1; number 3])] [] tt
           (VList [number 1; number 3]) [number 1; number 3]
           [number 1; number 3]).
  - reflexivity.
  - reflexivity.
  - repeat (apply Forall2_cons; [reflexivity|]). apply Forall2_nil.
Defined.

Lemma many_serialize_maps_witness :
  fserialize plain_records
    (VDict [(KStr "items", VList [number 1; number 2])]) [] tt =
  ([(KStr "data", VList [number 1; number 2])], Ok tt).
Proof.
  refine (proj1 (many_serialize_maps "items" (Some "data") plain_record None
                   (key_getter "items")
                   (VDict [(KStr "items", VList [number 1; number 2])])
                   (VList [number 1; number 2]) [] tt [number 1; number 2]
                   eq_refl eq_refl)
            [number 1; number 2] _).
  repeat (apply Forall2_cons; [reflexivity|]). apply Forall2_nil.
Defined.

Lemma nested_round_trip_witness :
  fserialize plain_records
    (VDict [(KStr "items", VList [number 1; number 2])]) [] tt =
  ([(KStr "data", VList [number 1; number 2])], Ok tt) /\
  fdeserialize plain_records
    (VDict [(KStr "data", VList [number 1; number 2])]) [] tt =
  ([(KStr "items", VList [number 1; number 2])], Ok tt).
Proof.
  refine (proj2 (nested_round_trip "items" (Some "data") plain_record
                   [(KStr "items", VList [number 1; number 2])] tt)
            [number 1; number 2] [number 1; number 2] eq_refl _).
  repeat (apply Forall2_cons; [split; reflexivity|]). apply Forall2_nil.
Defined.

(** ** The record builder: what else it does *)

Section RecordMore.

Context {context : Type}.
Implicit Types (ctx : context) (fields : list (@FieldTranslator context))
  (serializer : @Translator context).

Lemma built_deserialize_none (t : FieldTranslator) (sf tf : string)
    (target : dict) ctx :
  built t sf tf ->
  fdeserialize t VNone target ctx = (target, Raise AttributeError).
Proof. intros []; reflexivity. Qed.

(** A record with at least one field cannot read [None]: its first field
    calls [None.get], and the [AttributeError] is not caught.  So a
    [child] without pre-validators, on a source that lacks its key, raises
    [AttributeError] and writes nothing. *)
Theorem child_missing_key_attribute_error
    (source_field : string) (target_field : option string)
    (validators : option (list validator)) (attr_getter : option getter)
    (first : FieldTranslator) (sf tf : string) (rest : list FieldTranslator)
    (d target : dict) ctx :
  built first sf tf ->
  dict_lookup (KStr (name_or target_field source_field)) d = None ->
  list_or_empty validators = [] ->
  deserialize (serializer (first :: rest)) VNone ctx = Raise AttributeError /\
  fdeserialize
    (child source_field target_field (serializer (first :: rest)) validators
       attr_getter)
    (VDict d) target ctx = (target, Raise AttributeError).
Proof.
  intros Hb Hmiss Hnone.
  assert (Hnone' : deserialize (serializer (first :: rest)) VNone ctx =
                   Raise AttributeError).
  { simpl. unfold serializer_deserialize. simpl.
    now rewrite (built_deserialize_none _ _ _ _ _ Hb). }
  split; [exact Hnone'|].
  rewrite (child_call source_field target_field (serializer (first :: rest))
             validators attr_getter d target ctx VNone []).
  - now rewrite Hnone'.
  - rewrite Hmiss, Hnone. reflexivity.
Qed.

(** A record with a single [child] field reports the sub-translator's
    validation error one level down, under the child's [target_field]:
    the shape of the error follows the shape of the schema. *)
Theorem child_error_nests
    (source_field : string) (target_field : option string) serializer
    (attr_getter : option getter) (d : dict) ctx (e : val) :
  deserialize serializer
    (dict_get d (KStr (name_or target_field source_field))) ctx =
  Raise (ValidationException e) ->
  serializer_deserialize
    [child source_field target_field serializer None attr_getter] (VDict d) ctx =
  Raise (ValidationException
           (VDict [(KStr (name_or target_field source_field), e)])).
Proof.
  intros He. unfold serializer_deserialize. cbn [deserialize_loop].
  rewrite (child_call source_field target_field serializer None attr_getter
             d [] ctx (dict_get d (KStr (name_or target_field source_field))) [])
    by reflexivity.
  rewrite He. reflexivity.
Qed.

(** Only validation errors are collected.  Any other exception raised by
    a field ends the record builder's [deserialize] on the spot: it comes
    out in place of the validation errors gathered from the fields before
    it, and the fields after it are not reached. *)
Theorem serializer_deserialize_aborts
    (before after : list FieldTranslator) (f : FieldTranslator) (source : val)
    ctx (x : exn) :
  Forall returned_or_mapping (attempts before source ctx []) ->
  snd (fdeserialize f source (final_target before source ctx []) ctx) = Raise x ->
  (forall e, x <> ValidationException e) ->
  serializer_deserialize (before ++ f :: after) source ctx = Raise x.
Proof. apply deserialize_abort. Qed.

Lemma serialize_loop_app (before rest : list FieldTranslator) source ctx :
  forall target target',
    serialize_loop before source ctx target = Ok target' ->
    serialize_loop (before ++ rest) source ctx target =
    serialize_loop rest source ctx target'.
Proof.
  induction before as [|f before IH]; intros target target' H; simpl in *.
  - now injection H as ->.
  - destruct (fserialize f source target ctx) as [t [u|x]]; [|discriminate].
    now apply IH.
Qed.

(** [serialize] collects nothing: the first field whose [serialize]
    raises ends the record builder's [serialize] with that exception. *)
Theorem serializer_serialize_aborts
    (before after : list FieldTranslator) (f : FieldTranslator) (source : val)
    ctx (target : dict) (x : exn) :
  serialize_loop before source ctx [] = Ok target ->
  snd (fserialize f source target ctx) = Raise x ->
  serializer_serialize (before ++ f :: after) source ctx = Raise x.
Proof.
  intros Hbefore Hf. unfold serializer_serialize.
  rewrite (serialize_loop_app _ _ _ _ _ _ Hbefore). cbn [serialize_loop].
  destruct (fserialize f source target ctx) as [t r]. simpl in Hf. now subst r.
Qed.

(** What a constructed field leaves alone: [deserialize] changes the
    accumulator under [source_field] at most, and [serialize] under
    [target_field] at most, whether the call returns or raises. *)
Theorem built_field_frame (t : FieldTranslator) (sf tf : string)
    (source : val) (target : dict) ctx (k : key) :
  built t sf tf ->
  (k <> KStr sf ->
   dict_lookup k (fst (fdeserialize t source target ctx)) = dict_lookup k target) /\
  (k <> KStr tf ->
   dict_lookup k (fst (fserialize t source target ctx)) = dict_lookup k target).
Proof.
  assert (Hassign : forall name r,
             k <> KStr name ->
             dict_lookup k (fst (assign target (KStr name) r)) =
             dict_lookup k target).
  { intros name [v|x] Hk; simpl; [now apply dict_lookup_set_other | reflexivity]. }
  intros []; split; intros Hk; simpl;
    try (unfold field_deserialize, field_serialize, child_deserialize,
           child_serialize, many_serialize; now apply Hassign).
  unfold many_deserialize.
  match goal with |- context [match ?r with Ok _ => _ | Raise _ => _ end] =>
    destruct r as [[collector [|e es]]|x] end; simpl;
    try reflexivity; now apply dict_lookup_set_other.
Qed.

End RecordMore.

Lemma child_missing_key_attribute_error_witness :
  fdeserialize home (VDict [(KStr "work", number 1)]) [] tt =
  ([], Raise AttributeError).
Proof.
  refine (proj2 (child_missing_key_attribute_error "home" None None None
                   (dict_field "n" None (Some [reject_even]) false None None)
                   "n" "n" [] [(KStr "work", number 1)] [] tt _ eq_refl eq_refl)).
  apply (built_dict_field "n" None (Some [reject_even]) false None None).
Defined.

(** A failing validator two levels down. *)
Lemma child_error_nests_witness :
  serializer_deserialize [home] (VDict [(KStr "home", number 2)]) tt =
  Raise (ValidationException
           (VDict [(KStr "home", VDict [(KStr "n", VList [VStr "even"])])])).
Proof.
  apply (child_error_nests "home" None odd_record None
           [(KStr "home", number 2)] tt (VDict [(KStr "n", VList [VStr "even"])])).
  reflexivity.
Defined.

(** A failing field, then a list field whose key is missing: the
    [TypeError] comes out and the validation error is lost. *)
Lemma serializer_deserialize_aborts_witness :
  serializer_deserialize
    [field "a" None (Some [always_fail "no a"]) false None None;
     field "tags" None None true None None;
     field "b" None (Some [always_fail "no b"]) false None None]
    (VDict []) tt = Raise TypeError.
Proof.
  apply (serializer_deserialize_aborts
           [field "a" None (Some [always_fail "no a"]) false None None]
           [field "b" None (Some [always_fail "no b"]) false None None]
           (field "tags" None None true None None) (VDict []) tt TypeError).
  - apply Forall_cons; [right; eexists; reflexivity | apply Forall_nil].
  - reflexivity.
  - discriminate.
Defined.

Lemma serializer_serialize_aborts_witness :
  serializer_serialize
    [dict_field "a" None None false None None;
     field "b" None None false None None]
    (VDict [(KStr "a", VInt 1); (KStr "b", VInt 2)]) tt = Raise AttributeError.
Proof.
  apply (serializer_serialize_aborts
           [dict_field "a" None None false None None] []
           (field "b" None None false None None)
           (VDict [(KStr "a", VInt 1); (KStr "b", VInt 2)]) tt
           [(KStr "a", VInt 1)] AttributeError); reflexivity.
Defined.

(** The list field that raises leaves the entry ["kept"] alone while it
    overwrites ["xs"]. *)
Lemma built_field_frame_witness :
  dict_lookup (KStr "kept")
    (fst (fdeserialize odd_records
            (VDict [(KStr "xs", VList [number 1; number 2])])
            [(KStr "kept", VInt 0); (KStr "xs", VNone)] tt)) =
  Some (VInt 0).
Proof.
  refine (proj1 (built_field_frame odd_records "xs" "xs"
                   (VDict [(KStr "xs", VList [number 1; number 2])])
                   [(KStr "kept", VInt 0); (KStr "xs", VNone)] tt (KStr "kept")
                   (built_many "xs" None odd_record None None)) _).
  discriminate.
Defined.

(** ** Records of constructed fields *)

Section BuiltRecords.

Context {context : Type}.
Implicit Types (ctx : context) (fields : list (@FieldTranslator context)).

Lemma built_raise_mapping (t : FieldTranslator) (sf tf : string) source target
    ctx e :
  built t sf tf ->
  snd (fdeserialize t source target ctx) = Raise (ValidationException e) ->
  exists payload, e = VDict [(KStr tf, payload)].
Proof.
  intros [source_field target_field validators multiple attr_getter formatters
         |source_field target_field validators multiple attr_getter formatters
         |source_field target_field serializer validators attr_getter
         |source_field target_field serializer validators attr_getter] H.
  - eapply (library_fields_raise_mappings source_field target_field validators
              multiple attr_getter formatters
              {| serialize := fun _ _ => Ok VNone;
                 deserialize := fun _ _ => Ok VNone |});
      [left; reflexivity | exact H].
  - eapply (library_fields_raise_mappings source_field target_field validators
              multiple attr_getter formatters
              {| serialize := fun _ _ => Ok VNone;
                 deserialize := fun _ _ => Ok VNone |});
      [right; left; reflexivity | exact H].
  - eapply (library_fields_raise_mappings source_field target_field validators
              false attr_getter None serializer);
      [right; right; left; reflexivity | exact H].
  - eapply (library_fields_raise_mappings source_field target_field validators
              false attr_getter None serializer);
      [right; right; right; reflexivity | exact H].
Qed.

Lemma built_return_writes (t : FieldTranslator) (sf tf : string) source target
    target' ctx u :
  built t sf tf ->
  fdeserialize t source target ctx = (target', Ok u) ->
  exists v, target' = dict_set (KStr sf) v target.
Proof.
  assert (Hassign : forall name r,
             assign target (KStr name) r = (target', Ok u) ->
             exists v, target' = dict_set (KStr name) v target).
  { intros name [v|x]; simpl; intros [= <-]. now exists v. }
  intros []; simpl;
    try (unfold field_deserialize, child_deserialize; now apply Hassign).
  unfold many_deserialize.
  match goal with |- context [match ?r with Ok _ => _ | Raise _ => _ end] =>
    destruct r as [[collector [|e es]]|x] end; intros [= <-].
  now exists (VList collector).
Qed.

Lemma deserialize_loop_built fields (names : list string) source ctx :
  Forall2 (fun t n => exists tf, built t n tf) fields names ->
  forall target errors t e',
    deserialize_loop fields source ctx target errors = Ok (t, e') ->
    (errors <> [] -> e' <> []) /\
    (e' = [] ->
     Forall (fun a => snd a = Ok tt) (attempts fields source ctx target) /\
     t = final_target fields source ctx target /\
     forall k, In k (dict_keys t) <->
               In k (dict_keys target) \/ In k (map KStr names)).
Proof.
  induction 1 as [|f n fields names [tf Hb] _ IH]; intros target errors t e' H.
  - simpl in H. injection H as <- <-. split; [auto|].
    intros _. split; [constructor|]. split; [reflexivity|]. simpl. tauto.
  - cbn [deserialize_loop] in H. cbn [attempts final_target map].
    destruct (fdeserialize f source target ctx) as [target' r] eqn:E.
    destruct r as [u|[e| | |]]; try discriminate.
    + destruct (IH _ _ _ _ H) as [Hne Hall]. split; [exact Hne|].
      intros He'. destruct (Hall He') as (Hok & Ht & Hkeys).
      destruct (built_return_writes _ _ _ _ _ _ _ _ Hb E) as [v ->].
      cbn [fst]. split; [|split; [exact Ht|]].
      * constructor; [now destruct u | exact Hok].
      * intros k. rewrite Hkeys, dict_keys_set. simpl.
        split; intros Hk; [destruct Hk as [[->|Hk]|Hk] | destruct Hk as [Hk|[<-|Hk]]];
          auto.
    + assert (Hsnd : snd (fdeserialize f source target ctx) =
                     Raise (ValidationException e)) by now rewrite E.
      destruct (built_raise_mapping _ _ _ _ _ _ _ Hb Hsnd) as [payload ->].
      simpl in H.
      destruct (IH _ _ _ _ H) as [Hne _].
      assert (He' : e' <> []).
      { apply Hne. unfold dict_update. simpl. apply dict_set_not_nil. }
      split; [auto | intros Hnil; contradiction].
Qed.

(** A record of constructed fields never returns when one of its fields
    has raised: if [deserialize] returns, every field returned, and the
    mapping it returns has a key for each field's [source_field] and no
    other key. *)
Theorem serializer_deserialize_returns fields (names : list string)
    (source r : val) ctx :
  Forall2 (fun t n => exists tf, built t n tf) fields names ->
  serializer_deserialize fields source ctx = Ok r ->
  Forall (fun a => snd a = Ok tt) (attempts fields source ctx []) /\
  exists t, r = VDict t /\
            forall k, In k (dict_keys t) <-> In k (map KStr names).
Proof.
  intros Hb H. unfold serializer_deserialize in H.
  destruct (deserialize_loop fields source ctx [] []) as [[t e']|x] eqn:E;
    [|discriminate].
  simpl in H. destruct e' as [|kv e']; [|discriminate]. injection H as <-.
  destruct (deserialize_loop_built _ _ _ _ Hb _ _ _ _ E) as [_ Hall].
  destruct (Hall eq_refl) as (Hok & _ & Hkeys).
  split; [exact Hok|]. exists t. split; [reflexivity|].
  intros k. rewrite Hkeys. simpl. tauto.
Qed.

Implicit Types (descs : list (@field_desc context)).

Lemma dict_field_serialize_formatters (f : @field_desc context) (x target : dict)
    ctx :
  Forall returns_argument (list_or_empty (formatters_of f)) ->
  fserialize (dict_field_of f) (VDict x) target ctx =
  (dict_set (KStr (external_name f)) (dict_get x (KStr (source_name f))) target,
   Ok tt).
Proof.
  intros Hfmt. simpl. unfold field_serialize, dict_get; simpl.
  destruct (dict_lookup (KStr (source_name f)) x); simpl;
    now rewrite (run_formatters_identity _ _ _ Hfmt).
Qed.

Lemma serialize_loop_entries descs (x : dict) ctx :
  Forall (fun f => Forall returns_argument (list_or_empty (formatters_of f)))
    descs ->
  forall target,
    serialize_loop (map dict_field_of descs) (VDict x) ctx target =
    Ok (dict_update target
          (map (fun f => (KStr (external_name f),
                          dict_get x (KStr (source_name f)))) descs)).
Proof.
  induction 1 as [|f descs Hf _ IH]; intros target; [reflexivity|].
  cbn [map serialize_loop]. rewrite (dict_field_serialize_formatters _ _ _ _ Hf).
  now rewrite IH.
Qed.

(** Serializing a mapping through a record of [dict_field] fields that
    leave the getter to its default, and whose formatters return their
    argument, succeeds whatever the validators and the mapping are (a
    missing key is written as [None]); the output has exactly the fields'
    [target_field] names as keys; and when several fields share a name, the
    last of them decides the value. *)
Theorem serializer_serialize_last_wins descs (x : dict) ctx :
  Forall (fun f => Forall returns_argument (list_or_empty (formatters_of f)))
    descs ->
  exists out,
    serializer_serialize (map dict_field_of descs) (VDict x) ctx = Ok (VDict out) /\
    (forall k, In k (dict_keys out) <->
               In k (map (fun f => KStr (external_name f)) descs)) /\
    (forall before f after,
        descs = before ++ f :: after ->
        ~ In (external_name f) (map external_name after) ->
        dict_lookup (KStr (external_name f)) out =
        Some (dict_get x (KStr (source_name f)))).
Proof.
  intros Hid.
  exists (dict_update []
            (map (fun f => (KStr (external_name f),
                            dict_get x (KStr (source_name f)))) descs)).
  split; [|split].
  - unfold serializer_serialize. now rewrite (serialize_loop_entries _ _ _ Hid).
  - intros k. rewrite dict_update_keys. unfold dict_keys. rewrite map_map.
    simpl. tauto.
  - intros before f after -> Hlast. rewrite map_app. cbn [map].
    apply dict_update_lookup_last. unfold dict_keys. rewrite map_map. simpl.
    intros Hin. apply in_map_iff in Hin. destruct Hin as (g & [= Hg] & Hin).
    apply Hlast. rewrite <- Hg. now apply in_map.
Qed.

End BuiltRecords.

Lemma serializer_deserialize_returns_witness :
  Forall (fun a => snd a = Ok tt)
    (attempts [home; odd_records]
       (VDict [(KStr "home", number 1); (KStr "xs", VList [number 3])]) tt []) /\
  exists t,
    VDict [(KStr "home", number 1); (KStr "xs", VList [number 3])] = VDict t /\
    forall k, In k (dict_keys t) <-> In k (map KStr ["home"; "xs"]).
Proof.
  apply (serializer_deserialize_returns [home; odd_records] ["home"; "xs"]
           (VDict [(KStr "home", number 1); (KStr "xs", VList [number 3])])
           (VDict [(KStr "home", number 1); (KStr "xs", VList [number 3])]) tt).
  - apply Forall2_cons; [exists "home"; apply (built_child "home" None odd_record None None)|].
    apply Forall2_cons; [exists "xs"; apply (built_many "xs" None odd_record None None)|].
    apply Forall2_nil.
  - reflexivity.
Defined.

(** Two fields writing the same external name, both with a validator
    that always fails: the second one's value is the one in the output. *)
Lemma serializer_serialize_last_wins_witness :
  exists out,
    serializer_serialize
      (map dict_field_of
         [ {| source_name := "a"; target_name := Some "t";
              validators_of := Some [always_fail "no"];
              multiple_of := false; formatters_of := None |};
           {| source_name := "b"; target_name := Some "t";
              validators_of := Some [always_fail "no"];
              multiple_of := false; formatters_of := None |} ])
      (VDict [(KStr "a", VInt 1); (KStr "b", VInt 2)]) tt = Ok (VDict out) /\
    dict_lookup (KStr "t") out = Some (VInt 2).
Proof.
  destruct (@serializer_serialize_last_wins unit
              [ {| source_name := "a"; target_name := Some "t";
                   validators_of := Some [always_fail "no"];
                   multiple_of := false; formatters_of := None |};
                {| source_name := "b"; target_name := Some "t";
                   validators_of := Some [always_fail "no"];
                   multiple_of := false; formatters_of := None |} ]
              [(KStr "a", VInt 1); (KStr "b", VInt 2)] tt)
    as (out & Hout & _ & Hlast).
  - repeat (apply Forall_cons; [apply Forall_nil|]). apply Forall_nil.
  - exists out. split; [exact Hout|].
    apply (Hlast [ {| source_name := "a"; target_name := Some "t";
                      validators_of := Some [always_fail "no"];
                      multiple_of := false; formatters_of := None |} ]
             {| source_name := "b"; target_name := Some "t";
                validators_of := Some [always_fail "no"];
                multiple_of := false; formatters_of := None |} []).
    + reflexivity.
    + simpl. tauto.
Defined.
